(** * Shift-Generator: the scheduling model of [generate_shifts]

    A shallow embedding of [src/shift_generate.py].  The function builds a
    linear program with PuLP (one continuous shortage variable per slot, one
    binary assignment variable per employee and slot), hands it to a solver,
    and turns the solved values into two pandas tables.

    The solver is a parameter: a function from problems to variable values.
    What the theorems need from it is stated as a hypothesis on the value it
    returns for the problem at hand ([optimal]).  Numbers are exact rationals
    ([Q], compared with [==]). *)

From Stdlib Require Import QArith Qminmax Lqa.
From stdpp Require Import base option list sorting strings pretty gmap.

Local Open Scope string_scope.
Local Open Scope Z_scope.
Local Open Scope list_scope.

(** ** Python values that occur as dictionary keys, and exceptions *)

Inductive pyatom :=
| PStr (s : string)
| PInt (z : Z).

Inductive pykey :=
| KAtom (a : pyatom)
| KTuple (atoms : list pyatom).

Inductive exn := KeyError (k : pykey).

(** A computation that returns or raises. *)
Inductive result (A : Type) :=
| Ok (a : A)
| Raise (e : exn).
Arguments Ok {A} a.
Arguments Raise {A} e.

Definition bind {A B} (r : result A) (k : A → result B) : result B :=
  match r with
  | Ok a => k a
  | Raise e => Raise e
  end.

Notation "x ←! r ; k" := (bind r (λ x, k))
  (at level 20, r at level 100, k at level 200, right associativity,
   format "x  ←!  r ;  '/' k").
Notation "' p ←! r ; k" := (bind r (λ p, k))
  (at level 20, p pattern, r at level 100, k at level 200, right associativity,
   format "' p  ←!  r ;  '/' k").

(** A comprehension clause [for x in xs]: the body yields the elements it
    contributes (none when an [if] clause rejects [x]); evaluation is left to
    right and stops at the first exception. *)
Fixpoint for_in {A B} (xs : list A) (body : A → result (list B)) : result (list B) :=
  match xs with
  | [] => Ok []
  | x :: xs' => ys ←! body x; zs ←! for_in xs' body; Ok (ys ++ zs)
  end.

(** A [for] statement whose body updates the state [s]. *)
Fixpoint for_loop {A S} (xs : list A) (body : S → A → result S) (s : S) : result S :=
  match xs with
  | [] => Ok s
  | x :: xs' => s' ←! body s x; for_loop xs' body s'
  end.

Class PyKey (K : Type) := to_pykey : K → pykey.
#[global] Instance string_pykey : PyKey string := λ s, KAtom (PStr s).
#[global] Instance Z_pykey : PyKey Z := λ z, KAtom (PInt z).
#[global] Instance slot_pykey : PyKey (Z * string) :=
  λ '(day, shift_type), KTuple [PInt day; PStr shift_type].
#[global] Instance shift_pykey : PyKey (string * Z * string) :=
  λ '(employee, day, shift_type), KTuple [PStr employee; PInt day; PStr shift_type].

(** ** Python dictionaries built inside the function

    [shifts] and [shortages] are iterated with [.items()], so insertion
    order matters: a dictionary is a list of bindings, assignment to an
    existing key replaces the value where it stands, assignment to a new key
    appends. *)
Module PyDict.
Section dict.
Context {K V : Type} `{EqDecision K, PyKey K}.

Definition t := list (K * V).

Definition empty : t := [].

Fixpoint setitem (d : t) (k : K) (v : V) : t :=
match d with
| [] => [(k, v)]
| (k', v') :: d' =>
    if decide (k' = k) then (k, v) :: d' else (k', v') :: setitem d' k v
end.

Fixpoint get (d : t) (k : K) : option V :=
match d with
| [] => None
| (k', v') :: d' => if decide (k' = k) then Some v' else get d' k
end.

Definition getitem (d : t) (k : K) : result V :=
match get d k with
| Some v => Ok v
| None => Raise (KeyError (to_pykey k))
end.

Definition items (d : t) : list (K * V) := d.
Definition keys (d : t) : list K := d.*1.
End dict.
Arguments t : clear implicits.
End PyDict.

(** Subscripting the caller's dictionaries ([desired_shifts[employee]],
    [required_shifts[day][shift_type]]). *)
Definition subscript `{Countable K, PyKey K} {V} (m : gmap K V) (k : K) : result V :=
  match m !! k with
  | Some v => Ok v
  | None => Raise (KeyError (to_pykey k))
  end.

(** ** The PuLP model *)

(** An [LpVariable] object.  Every variable the function creates is stored
    in [shifts] or [shortages] before any expression mentions it, and every
    expression reads it back from there, so the object is identified by the
    dictionary and key that hold it. *)
Inductive var_id :=
| ShortageVar (day : Z) (shift_type : string)
| ShiftVar (employee : string) (day : Z) (shift_type : string).

#[global] Instance var_id_eq_dec : EqDecision var_id.
Proof. solve_decision. Defined.

Inductive LpCategory := Continuous | Integer | Binary.

Record LpVariable := mkLpVariable {
  var_ident : var_id;
  var_name : string;
  lowBound : option Q;
  upBound : option Q;
  cat : LpCategory
}.

(** A linear expression: a list of (variable, coefficient) terms and a
    constant. *)
Record LpAffineExpression := mkExpr {
  terms : list (LpVariable * Q);
  constant : Q
}.

Definition lpSum (xs : list LpVariable) : LpAffineExpression :=
  mkExpr (map (λ x, (x, 1%Q)) xs) 0%Q.

Definition expr_of_var (x : LpVariable) : LpAffineExpression :=
  mkExpr [(x, 1%Q)] 0%Q.

Definition expr_add (a b : LpAffineExpression) : LpAffineExpression :=
  mkExpr (terms a ++ terms b) (constant a + constant b)%Q.

Definition expr_neg (a : LpAffineExpression) : LpAffineExpression :=
  mkExpr (map (λ t, (t.1, (- t.2)%Q)) (terms a)) (- constant a)%Q.

Definition expr_sub (a b : LpAffineExpression) : LpAffineExpression :=
  expr_add a (expr_neg b).

Inductive LpConstraintSense := LpConstraintLE | LpConstraintEQ | LpConstraintGE.

Record LpConstraint := mkConstraint {
  lhs : LpAffineExpression;
  sense : LpConstraintSense;
  rhs : Q
}.

Inductive LpSense := LpMinimize | LpMaximize.

Record LpProblem := mkProblem {
  prob_name : string;
  prob_sense : LpSense;
  objective : LpAffineExpression;
  constraints : list LpConstraint
}.

(** [prob += expr] sets the objective, [prob += constraint] appends. *)
Definition set_objective (prob : LpProblem) (e : LpAffineExpression) : LpProblem :=
  mkProblem (prob_name prob) (prob_sense prob) e (constraints prob).

Definition add_constraint (prob : LpProblem) (c : LpConstraint) : LpProblem :=
  mkProblem (prob_name prob) (prob_sense prob) (objective prob) (constraints prob ++ [c]).

(** ** The slot grid *)

(** [range(a, b)] *)
Definition range (a b : Z) : list Z := map (λ i : nat, a + Z.of_nat i) (seq 0 (Z.to_nat (b - a))).

Definition days : list Z := range 1 31.
Definition shift_types : list string := ["Morning"; "Evening"].
Arguments days : simpl never.
Arguments shift_types : simpl never.

(** ** Variable declaration *)

Definition shortage_variable (day : Z) (shift_type : string) : LpVariable :=
  mkLpVariable (ShortageVar day shift_type)
    ("Shortage_" +:+ pretty day +:+ "_" +:+ shift_type)
    (Some 0%Q) None Continuous.

(** [cat='Binary'] *)
Definition shift_variable (employee : string) (day : Z) (shift_type : string) : LpVariable :=
  mkLpVariable (ShiftVar employee day shift_type)
    (employee +:+ "_" +:+ pretty day +:+ "_" +:+ shift_type)
    None None Binary.

Abbreviation shifts_dict := (PyDict.t (string * Z * string) LpVariable).
Abbreviation shortages_dict := (PyDict.t (Z * string) LpVariable).

Definition declare_variables (employees : list string) : shifts_dict * shortages_dict :=
  foldl (λ st day,
    foldl (λ st shift_type,
      let '(shifts, shortages) := st in
      let shortages :=
        PyDict.setitem shortages (day, shift_type) (shortage_variable day shift_type) in
      let shifts :=
        foldl (λ shifts employee,
                 PyDict.setitem shifts (employee, day, shift_type)
                   (shift_variable employee day shift_type))
              shifts employees in
      (shifts, shortages))
    st shift_types)
  (PyDict.empty, PyDict.empty) days.

Example declare_variables_small :
  (PyDict.keys (declare_variables ["a"; "b"; "a"]).1) !! 2%nat = Some ("a", 1, "Evening").
Proof. vm_compute. reflexivity. Qed.

(** ** Building the problem *)

Abbreviation desired_map := (gmap string (gset (Z * string))).
Abbreviation required_map := (gmap Z (gmap string Z)).

Section build.
Variable employees : list string.
Variable desired_shifts : desired_map.
Variable required_shifts : required_map.
Variable shifts : shifts_dict.
Variable shortages : shortages_dict.

(** [lpSum([shortages[(day, shift_type)] for day in range(1, 31)
     for shift_type in ['Morning', 'Evening']])
     - lpSum([shifts[(employee, day, shift_type)] for employee in employees
     for day in range(1, 31) for shift_type in ['Morning', 'Evening']
     if (day, shift_type) in desired_shifts[employee]])] *)
Definition objective_expr : result LpAffineExpression :=
  penalised ←!
    for_in days (λ day,
      for_in shift_types (λ shift_type,
        x ←! PyDict.getitem shortages (day, shift_type); Ok [x]));
  granted ←!
    for_in employees (λ employee,
      for_in days (λ day,
        for_in shift_types (λ shift_type,
          wanted ←! subscript desired_shifts employee;
          if decide ((day, shift_type) ∈ wanted)
          then x ←! PyDict.getitem shifts (employee, day, shift_type); Ok [x]
          else Ok [])));
  Ok (expr_sub (lpSum penalised) (lpSum granted)).

(** [lpSum(shifts[(employee, day, shift_type)] for employee in employees)
     + shortages[(day, shift_type)] >= required_shifts[day][shift_type]] *)
Definition coverage_constraint (day : Z) (shift_type : string) : result LpConstraint :=
  staffed ←!
    for_in employees (λ employee,
      x ←! PyDict.getitem shifts (employee, day, shift_type); Ok [x]);
  shortage ←! PyDict.getitem shortages (day, shift_type);
  row ←! subscript required_shifts day;
  required ←! subscript row shift_type;
  Ok (mkConstraint (expr_add (lpSum staffed) (expr_of_var shortage))
        LpConstraintGE (inject_Z required)).

Definition add_coverage_constraints (prob : LpProblem) : result LpProblem :=
  for_loop days (λ prob day,
    for_loop shift_types (λ prob shift_type,
      c ←! coverage_constraint day shift_type;
      Ok (add_constraint prob c)) prob) prob.

(** [if (day, shift_type) not in desired_shifts[employee]:
       prob += shifts[(employee, day, shift_type)] == 0] *)
Definition add_preference_locks (prob : LpProblem) : result LpProblem :=
  for_loop employees (λ prob employee,
    for_loop days (λ prob day,
      for_loop shift_types (λ prob shift_type,
        wanted ←! subscript desired_shifts employee;
        if decide ((day, shift_type) ∉ wanted)
        then x ←! PyDict.getitem shifts (employee, day, shift_type);
             Ok (add_constraint prob (mkConstraint (expr_of_var x) LpConstraintEQ 0%Q))
        else Ok prob) prob) prob) prob.
End build.

Definition build_problem (employees : list string) (desired_shifts : desired_map)
    (required_shifts : required_map) : result (shifts_dict * shortages_dict * LpProblem) :=
  let prob := mkProblem "Shift_Scheduling" LpMinimize (mkExpr [] 0%Q) [] in
  let '(shifts, shortages) := declare_variables employees in
  obj ←! objective_expr employees desired_shifts shifts shortages;
  let prob := set_objective prob obj in
  prob ←! add_coverage_constraints employees required_shifts shifts shortages prob;
  prob ←! add_preference_locks employees desired_shifts shifts prob;
  Ok (shifts, shortages, prob).

(** ** Result tables *)

(** [f"{day}-{shift_type}"] *)
Definition slot_label (day : Z) (shift_type : string) : string :=
  pretty day +:+ "-" +:+ shift_type.

Fixpoint sumQ (qs : list Q) : Q :=
  match qs with
  | [] => 0%Q
  | q :: qs' => (q + sumQ qs')%Q
  end.

Definition mean (qs : list Q) : Q := (sumQ qs / inject_Z (Z.of_nat (length qs)))%Q.

(** [!= 0] on a solved value *)
Definition nonzero (q : Q) : bool := negb (Qeq_bool q 0).

Record DataFrame := mkDataFrame {
  index : list string;
  columns : list string;
  values : list (list Q)
}.

(** The order pandas sorts string labels by. *)
Definition string_le (a b : string) : Prop := String.leb a b = true.

#[global] Instance string_le_dec a b : Decision (string_le a b).
Proof. unfold string_le. apply _. Defined.

Definition sorted_unique (xs : list string) : list string :=
  merge_sort string_le (remove_dups xs).

(** The value [pivot_table] puts in a cell: the mean of the records of that
    employee and label (the default aggregation), or the fill value when
    there is none. *)
Definition pivot_cell (records : list (string * string * Q)) (fill_value : Q)
    (row col : string) : Q :=
  match filter (λ r, r.1.1 = row ∧ r.1.2 = col) records with
  | [] => fill_value
  | group => mean (map snd group)
  end.

(** [shifts_df.pivot_table(index='Employee', columns='Day-Shift',
     values='Assigned', fill_value=0)] *)
Definition pivot_table (records : list (string * string * Q)) : DataFrame :=
  let index := sorted_unique (map (λ r, r.1.1) records) in
  let columns := sorted_unique (map (λ r, r.1.2) records) in
  mkDataFrame index columns
    (map (λ row, map (pivot_cell records 0%Q row) columns) index).

(** [pd.DataFrame(shortages_data, columns=['Day-Shift', 'Shortage'])
     .set_index('Day-Shift')] *)
Definition shortage_frame (records : list (string * Q)) : DataFrame :=
  mkDataFrame (map fst records) ["Shortage"] (map (λ r, [r.2]) records).

(** [[(employee, f"{day}-{shift_type}", value.varValue)
      for (employee, day, shift_type), value in shifts.items()
      if value.varValue != 0]] *)
Definition shifts_data (shifts : shifts_dict) (varValue : var_id → Q) :
    list (string * string * Q) :=
  omap (λ '((employee, day, shift_type), value),
          if nonzero (varValue (var_ident value))
          then Some (employee, slot_label day shift_type, varValue (var_ident value))
          else None)
       (PyDict.items shifts).

(** [[(f"{day}-{shift_type}", value.varValue)
      for (day, shift_type), value in shortages.items() if value.varValue != 0]] *)
Definition shortages_data (shortages : shortages_dict) (varValue : var_id → Q) :
    list (string * Q) :=
  omap (λ '((day, shift_type), value),
          if nonzero (varValue (var_ident value))
          then Some (slot_label day shift_type, varValue (var_ident value))
          else None)
       (PyDict.items shortages).

Definition extract_results (shifts : shifts_dict) (shortages : shortages_dict)
    (varValue : var_id → Q) : DataFrame * DataFrame :=
  let pivot := pivot_table (shifts_data shifts varValue) in
  let shortages_df := shortage_frame (shortages_data shortages varValue) in
  (pivot, shortages_df).

(** ** The function *)

Definition generate_shifts (solve : LpProblem → var_id → Q)
    (employees : list string) (desired_shifts : desired_map)
    (required_shifts : required_map) : result (DataFrame * DataFrame) :=
  '(shifts, shortages, prob) ←! build_problem employees desired_shifts required_shifts;
  let varValue := solve prob in
  Ok (extract_results shifts shortages varValue).

(** ** What a solver is asked for *)

Definition eval (e : LpAffineExpression) (v : var_id → Q) : Q :=
  (sumQ (map (λ t, t.2 * v (var_ident t.1)) (terms e)) + constant e)%Q.

Definition satisfies (v : var_id → Q) (c : LpConstraint) : Prop :=
  match sense c with
  | LpConstraintLE => (eval (lhs c) v <= rhs c)%Q
  | LpConstraintEQ => (eval (lhs c) v == rhs c)%Q
  | LpConstraintGE => (rhs c <= eval (lhs c) v)%Q
  end.

Definition in_domain (x : LpVariable) (q : Q) : Prop :=
  from_option (λ lo, (lo <= q)%Q) True (lowBound x) ∧
  from_option (λ hi, (q <= hi)%Q) True (upBound x) ∧
  match cat x with
  | Continuous => True
  | Integer => ∃ z : Z, (q == inject_Z z)%Q
  | Binary => (q == 0)%Q ∨ (q == 1)%Q
  end.

(** The variables of a problem are those its objective and constraints
    mention. *)
Definition variables (prob : LpProblem) : list LpVariable :=
  (terms (objective prob)).*1 ++ (constraints prob ≫= λ c, (terms (lhs c)).*1).

Definition feasible (prob : LpProblem) (v : var_id → Q) : Prop :=
  (∀ x, x ∈ variables prob → in_domain x (v (var_ident x))) ∧
  (∀ c, c ∈ constraints prob → satisfies v c).

Definition optimal (prob : LpProblem) (v : var_id → Q) : Prop :=
  feasible prob v ∧
  ∀ v', feasible prob v' →
    match prob_sense prob with
    | LpMinimize => (eval (objective prob) v <= eval (objective prob) v')%Q
    | LpMaximize => (eval (objective prob) v' <= eval (objective prob) v)%Q
    end.

(** ** Reading the returned tables *)

Fixpoint position (x : string) (xs : list string) : option nat :=
  match xs with
  | [] => None
  | y :: ys => if decide (y = x) then Some 0%nat else S <$> position x ys
  end.

(** The cell at a row and column label, when both exist. *)
Definition cell (df : DataFrame) (row col : string) : option Q :=
  i ← position row (index df);
  j ← position col (columns df);
  r ← values df !! i;
  r !! j.

(** The assignment of an employee to a slot as the assignment table shows it:
    a slot or employee without a row or column has no assignment. *)
Definition assigned (pivot : DataFrame) (employee : string) (day : Z) (shift_type : string) : Q :=
  default 0%Q (cell pivot employee (slot_label day shift_type)).

(** The shortage of a slot as the shortage table shows it: a slot without a
    row has none. *)
Definition shortage_of (shortages_df : DataFrame) (day : Z) (shift_type : string) : Q :=
  default 0%Q (cell shortages_df (slot_label day shift_type) "Shortage").

(** * Properties *)

(** ** The error monad *)

Definition raises {A} (r : result A) : Prop := ∃ k, r = Raise (KeyError k).

Lemma raises_or_ok {A} (r : result A) : raises r ∨ ∃ a, r = Ok a.
Proof. destruct r as [a|[k]]; [right|left]; eauto. by exists k. Qed.

Lemma bind_Ok {A B} (a : A) (k : A → result B) : bind (Ok a) k = k a.
Proof. done. Qed.

Lemma bind_raises_l {A B} (r : result A) (k : A → result B) :
  raises r → raises (bind r k).
Proof. intros [key ->]. by exists key. Qed.

Lemma bind_raises_r {A B} (r : result A) (k : A → result B) :
  (∀ a, raises (k a)) → raises (bind r k).
Proof.
  intros Hk. destruct (raises_or_ok r) as [Hr|[a ->]]; [by apply bind_raises_l|apply Hk].
Qed.

Lemma for_in_raises {A B} (xs : list A) (body : A → result (list B)) x :
  x ∈ xs → raises (body x) → raises (for_in xs body).
Proof.
  intros Hin Hx. induction Hin as [|? ? ? Hin IH]; simpl.
  - by apply bind_raises_l.
  - apply bind_raises_r; intros ys. apply bind_raises_l; auto.
Qed.

Lemma for_loop_raises {A S} (xs : list A) (body : S → A → result S) x s :
  x ∈ xs → (∀ s', raises (body s' x)) → raises (for_loop xs body s).
Proof.
  intros Hin Hx; revert s.
  induction Hin as [|? ? ? Hin IH]; intros s; simpl.
  - by apply bind_raises_l.
  - apply bind_raises_r; intros s'. auto.
Qed.

Lemma for_in_ok {A B} (xs : list A) (body : A → result (list B)) (g : A → list B) :
  (∀ x, x ∈ xs → body x = Ok (g x)) → for_in xs body = Ok (xs ≫= g).
Proof.
  induction xs as [|x xs IH]; intros Hb; simpl; [done|].
  rewrite Hb by left. simpl. rewrite IH; [done|].
  intros y Hy. apply Hb. by right.
Qed.

Lemma for_loop_ok {A S} (xs : list A) (body : S → A → result S) (h : S → A → S) s :
  (∀ s' x, x ∈ xs → body s' x = Ok (h s' x)) → for_loop xs body s = Ok (foldl h s xs).
Proof.
  revert s. induction xs as [|x xs IH]; intros s Hb; simpl; [done|].
  rewrite Hb by left. simpl. apply IH. intros s' y Hy. apply Hb. by right.
Qed.

(** ** Dictionaries *)

Section dict_facts.
Context {K V : Type} `{EqDecision K, PyKey K}.
Implicit Types (d : PyDict.t K V) (k : K) (v : V).

Lemma get_setitem d k v k' :
  PyDict.get (PyDict.setitem d k v) k' = if decide (k = k') then Some v else PyDict.get d k'.
Proof.
  induction d as [|[k0 v0] d IH]; simpl.
  - repeat case_decide; congruence.
  - destruct (decide (k0 = k)) as [->|Hne]; simpl.
    + repeat case_decide; congruence.
    + rewrite IH. repeat case_decide; congruence.
Qed.

Lemma elem_of_keys_setitem d k v k' :
  k' ∈ PyDict.keys (PyDict.setitem d k v) ↔ k' = k ∨ k' ∈ PyDict.keys d.
Proof.
  unfold PyDict.keys. induction d as [|[k0 v0] d IH]; simpl.
  - set_solver.
  - case_decide; subst; simpl; rewrite ?elem_of_cons, ?IH; naive_solver.
Qed.

Lemma NoDup_keys_setitem d k v :
  NoDup (PyDict.keys d) → NoDup (PyDict.keys (PyDict.setitem d k v)).
Proof.
  unfold PyDict.keys. induction d as [|[k0 v0] d IH]; simpl; intros Hd.
  - apply NoDup_singleton.
  - apply NoDup_cons in Hd as [Hk0 Hd]. case_decide; subst; simpl.
    + by apply NoDup_cons.
    + apply NoDup_cons. split; [|auto].
      intros Hin. apply (elem_of_keys_setitem d k v k0) in Hin. naive_solver.
Qed.

Lemma get_None_keys d k : PyDict.get d k = None ↔ k ∉ PyDict.keys d.
Proof.
  unfold PyDict.keys. induction d as [|[k0 v0] d IH]; simpl.
  - split; [intros _; apply not_elem_of_nil|done].
  - rewrite not_elem_of_cons. case_decide; subst; [naive_solver|].
    rewrite IH. naive_solver.
Qed.

Lemma elem_of_items_get d k v :
  NoDup (PyDict.keys d) → (k, v) ∈ PyDict.items d ↔ PyDict.get d k = Some v.
Proof.
  unfold PyDict.keys, PyDict.items. induction d as [|[k0 v0] d IH]; simpl; intros Hd.
  - split; [by intros ?%elem_of_nil|done].
  - apply NoDup_cons in Hd as [Hk0 Hd]. rewrite elem_of_cons, (IH Hd).
    case_decide; subst.
    + split; [intros [?|Hg]; [congruence|]|intros [= ->]; by left].
      exfalso. apply Hk0. apply dec_stable. intros Hn.
      apply (get_None_keys d k) in Hn. congruence.
    + naive_solver.
Qed.

(** A loop that stores, at each key it visits, a value that depends on the
    key only. *)
Lemma get_foldl {A} (F : PyDict.t K V → A → PyDict.t K V) (p : A → K → bool)
    (g : K → V) (xs : list A) d k :
  (∀ d x k, PyDict.get (F d x) k = if p x k then Some (g k) else PyDict.get d k) →
  PyDict.get (foldl F d xs) k =
    if existsb (λ x, p x k) xs then Some (g k) else PyDict.get d k.
Proof.
  intros HF. revert d. induction xs as [|x xs IH]; intros d; simpl; [done|].
  rewrite IH, HF. destruct (p x k), (existsb _ xs); done.
Qed.

Lemma NoDup_keys_foldl {A} (F : PyDict.t K V → A → PyDict.t K V) (xs : list A) d :
  (∀ d x, NoDup (PyDict.keys d) → NoDup (PyDict.keys (F d x))) →
  NoDup (PyDict.keys d) → NoDup (PyDict.keys (foldl F d xs)).
Proof. intros HF. revert d. induction xs; simpl; auto. Qed.
End dict_facts.

Lemma foldl_pair {A B C} (f : A * B → C → A * B) (f1 : A → C → A) (f2 : B → C → B) xs st :
  (∀ st x, f st x = (f1 st.1 x, f2 st.2 x)) →
  foldl f st xs = (foldl f1 st.1 xs, foldl f2 st.2 xs).
Proof.
  intros Hf. revert st. induction xs as [|x xs IH]; intros st; simpl.
  - by destruct st.
  - by rewrite IH, Hf.
Qed.

(** ** The slot grid *)

Definition slots : list (Z * string) := day ← days; shift_type ← shift_types; [(day, shift_type)].

Lemma elem_of_days d : d ∈ days ↔ 1 ≤ d ≤ 30.
Proof.
  unfold days, range. rewrite list_elem_of_fmap. split.
  - intros (i & -> & Hi%elem_of_seq). simpl in Hi. lia.
  - intros Hd. exists (Z.to_nat (d - 1)). split; [lia|].
    apply elem_of_seq. simpl. lia.
Qed.

Lemma elem_of_shift_types s : s ∈ shift_types ↔ s = "Morning" ∨ s = "Evening".
Proof. unfold shift_types. set_solver. Qed.

Lemma elem_of_slots d s : (d, s) ∈ slots ↔ d ∈ days ∧ s ∈ shift_types.
Proof.
  unfold slots. rewrite list_elem_of_bind. split.
  - intros (d' & Hs & Hd). apply list_elem_of_bind in Hs as (s' & Hs & Hs').
    apply list_elem_of_singleton in Hs as [= -> ->]. done.
  - intros [Hd Hs]. exists d. split; [|done].
    apply list_elem_of_bind. exists s. split; [|done]. by apply list_elem_of_singleton.
Qed.

Lemma NoDup_slots : NoDup slots.
Proof. apply (bool_decide_unpack _). vm_compute. exact I. Qed.

Lemma NoDup_slot_labels : NoDup (map (λ sl, slot_label sl.1 sl.2) slots).
Proof. apply (bool_decide_unpack _). vm_compute. exact I. Qed.

Lemma NoDup_fmap_inj_on {A B} (f : A → B) (l : list A) x y :
  NoDup (f <$> l) → x ∈ l → y ∈ l → f x = f y → x = y.
Proof.
  intros Hnd [i Hi]%list_elem_of_lookup [j Hj]%list_elem_of_lookup Heq.
  assert (i = j) as ->; [|congruence].
  apply (NoDup_lookup _ i j (f x) Hnd); rewrite list_lookup_fmap.
  - by rewrite Hi.
  - by rewrite Hj, Heq.
Qed.

Lemma slot_label_inj d s d' s' :
  (d, s) ∈ slots → (d', s') ∈ slots → slot_label d s = slot_label d' s' → (d, s) = (d', s').
Proof.
  intros H1 H2 Heq.
  by apply (NoDup_fmap_inj_on (λ sl, slot_label sl.1 sl.2) slots _ _ NoDup_slot_labels).
Qed.

(** ** The declared variables *)

Definition fill_shifts (employees : list string) : shifts_dict :=
  foldl (λ d day,
    foldl (λ d shift_type,
      foldl (λ d employee,
        PyDict.setitem d (employee, day, shift_type) (shift_variable employee day shift_type))
      d employees) d shift_types) PyDict.empty days.

Definition fill_shortages : shortages_dict :=
  foldl (λ d day,
    foldl (λ d shift_type,
      PyDict.setitem d (day, shift_type) (shortage_variable day shift_type))
    d shift_types) PyDict.empty days.

Lemma declare_variables_split employees :
  declare_variables employees = (fill_shifts employees, fill_shortages).
Proof.
  unfold declare_variables, fill_shifts, fill_shortages.
  apply (foldl_pair _
    (λ d day, foldl (λ d shift_type, foldl (λ d employee,
       PyDict.setitem d (employee, day, shift_type) (shift_variable employee day shift_type))
       d employees) d shift_types)
    (λ d day, foldl (λ d shift_type,
       PyDict.setitem d (day, shift_type) (shortage_variable day shift_type)) d shift_types)).
  intros st day.
  apply (foldl_pair _
    (λ d shift_type, foldl (λ d employee,
       PyDict.setitem d (employee, day, shift_type) (shift_variable employee day shift_type))
       d employees)
    (λ d shift_type,
       PyDict.setitem d (day, shift_type) (shortage_variable day shift_type))).
  by intros [shifts shortages] shift_type.
Qed.

Lemma existsb_elem_of {A} (p : A → bool) (xs : list A) :
  existsb p xs = true ↔ ∃ x, x ∈ xs ∧ p x = true.
Proof.
  rewrite existsb_exists. by setoid_rewrite list_elem_of_In.
Qed.

Definition key_is {K} `{EqDecision K} (k' k : K) : bool := bool_decide (k = k').

Lemma get_fill_shortages d s :
  PyDict.get fill_shortages (d, s) =
    if decide ((d, s) ∈ slots) then Some (shortage_variable d s) else None.
Proof.
  unfold fill_shortages.
  rewrite (get_foldl _
    (λ day k, existsb (λ shift_type, key_is (day, shift_type) k) shift_types)
    (λ k, shortage_variable k.1 k.2)).
  - simpl PyDict.get. case_decide as Hin.
    + apply elem_of_slots in Hin as [Hd Hs].
      replace (existsb _ days) with true; [done|]. symmetry.
      apply existsb_elem_of. exists d. split; [done|].
      apply existsb_elem_of. exists s. split; [done|]. by apply bool_decide_eq_true.
    + destruct (existsb _ days) eqn:Hex; [|done]. exfalso. apply Hin.
      apply existsb_elem_of in Hex as (d' & Hd & Hex).
      apply existsb_elem_of in Hex as (s' & Hs & Heq).
      apply bool_decide_eq_true in Heq as [= -> ->]. by apply elem_of_slots.
  - intros d0 day k.
    apply (get_foldl _ (λ shift_type k, key_is (day, shift_type) k)
             (λ k, shortage_variable k.1 k.2)).
    intros d1 shift_type k1. rewrite get_setitem.
    unfold key_is. case_decide; case_bool_decide; subst; done.
Qed.

Lemma get_fill_shifts employees e d s :
  PyDict.get (fill_shifts employees) (e, d, s) =
    if decide (e ∈ employees ∧ (d, s) ∈ slots) then Some (shift_variable e d s) else None.
Proof.
  unfold fill_shifts.
  rewrite (get_foldl _
    (λ day k, existsb (λ shift_type,
       existsb (λ employee, key_is (employee, day, shift_type) k) employees)
       shift_types)
    (λ k, shift_variable k.1.1 k.1.2 k.2)).
  - simpl PyDict.get. case_decide as Hin.
    + destruct Hin as [He [Hd Hs]%elem_of_slots].
      replace (existsb _ days) with true; [done|]. symmetry.
      apply existsb_elem_of. exists d. split; [done|].
      apply existsb_elem_of. exists s. split; [done|].
      apply existsb_elem_of. exists e. split; [done|]. by apply bool_decide_eq_true.
    + destruct (existsb _ days) eqn:Hex; [|done]. exfalso. apply Hin.
      apply existsb_elem_of in Hex as (d' & Hd & Hex).
      apply existsb_elem_of in Hex as (s' & Hs & Hex).
      apply existsb_elem_of in Hex as (e' & He & Heq).
      apply bool_decide_eq_true in Heq as [= -> -> ->]. split; [done|]. by apply elem_of_slots.
  - intros d0 day k.
    apply (get_foldl _
      (λ shift_type k, existsb (λ employee, key_is (employee, day, shift_type) k)
         employees)
      (λ k, shift_variable k.1.1 k.1.2 k.2)).
    intros d1 shift_type k1.
    apply (get_foldl _ (λ employee k, key_is (employee, day, shift_type) k)
             (λ k, shift_variable k.1.1 k.1.2 k.2)).
    intros d2 employee k2. rewrite get_setitem.
    unfold key_is. case_decide; case_bool_decide; subst; done.
Qed.

Lemma NoDup_keys_fill_shortages : NoDup (PyDict.keys fill_shortages).
Proof.
  unfold fill_shortages. apply NoDup_keys_foldl; [|apply NoDup_nil_2].
  intros d day Hd. apply NoDup_keys_foldl; [|done].
  intros. by apply NoDup_keys_setitem.
Qed.

Lemma NoDup_keys_fill_shifts employees : NoDup (PyDict.keys (fill_shifts employees)).
Proof.
  unfold fill_shifts. apply NoDup_keys_foldl; [|apply NoDup_nil_2].
  intros d day Hd. apply NoDup_keys_foldl; [|done].
  intros d1 shift_type Hd1. apply NoDup_keys_foldl; [|done].
  intros. by apply NoDup_keys_setitem.
Qed.

Lemma elem_of_items_shortages d s x :
  ((d, s), x) ∈ PyDict.items fill_shortages ↔ (d, s) ∈ slots ∧ x = shortage_variable d s.
Proof.
  rewrite elem_of_items_get by apply NoDup_keys_fill_shortages.
  rewrite get_fill_shortages. case_decide; naive_solver.
Qed.

Lemma elem_of_items_shifts employees e d s x :
  ((e, d, s), x) ∈ PyDict.items (fill_shifts employees) ↔
  e ∈ employees ∧ (d, s) ∈ slots ∧ x = shift_variable e d s.
Proof.
  rewrite elem_of_items_get by apply NoDup_keys_fill_shifts.
  rewrite get_fill_shifts. case_decide; naive_solver.
Qed.

Lemma getitem_fill_shortages d s :
  (d, s) ∈ slots → PyDict.getitem fill_shortages (d, s) = Ok (shortage_variable d s).
Proof. intros Hin. unfold PyDict.getitem. rewrite get_fill_shortages. by case_decide. Qed.

Lemma getitem_fill_shifts employees e d s :
  e ∈ employees → (d, s) ∈ slots →
  PyDict.getitem (fill_shifts employees) (e, d, s) = Ok (shift_variable e d s).
Proof.
  intros He Hin. unfold PyDict.getitem. rewrite get_fill_shifts.
  case_decide; naive_solver.
Qed.

(** ** The problem that is built *)

Definition wanted_of (desired_shifts : desired_map) (employee : string) : gset (Z * string) :=
  default ∅ (desired_shifts !! employee).

Definition required_of (required_shifts : required_map) (day : Z) (shift_type : string) : Z :=
  default 0 (required_shifts !! day ≫= λ row, row !! shift_type).

(** Every lookup the function makes in its two input dictionaries succeeds. *)
Definition inputs_present (employees : list string) (desired_shifts : desired_map)
    (required_shifts : required_map) : Prop :=
  (∀ e, e ∈ employees → is_Some (desired_shifts !! e)) ∧
  (∀ d s, (d, s) ∈ slots → ∃ row r, required_shifts !! d = Some row ∧ row !! s = Some r).

Definition with_constraints (prob : LpProblem) (cs : list LpConstraint) : LpProblem :=
  mkProblem (prob_name prob) (prob_sense prob) (objective prob) (constraints prob ++ cs).

Section model.
Variable employees : list string.
Variable wanted : string → gset (Z * string).
Variable required : Z → string → Z.

Definition penalised_vars : list LpVariable :=
  day ← days; shift_type ← shift_types; [shortage_variable day shift_type].

Definition granted_vars : list LpVariable :=
  employee ← employees; day ← days; shift_type ← shift_types;
  if decide ((day, shift_type) ∈ wanted employee)
  then [shift_variable employee day shift_type] else [].

Definition coverage (day : Z) (shift_type : string) : LpConstraint :=
  mkConstraint
    (expr_add (lpSum (employee ← employees; [shift_variable employee day shift_type]))
              (expr_of_var (shortage_variable day shift_type)))
    LpConstraintGE (inject_Z (required day shift_type)).

Definition lock (employee : string) (day : Z) (shift_type : string) : LpConstraint :=
  mkConstraint (expr_of_var (shift_variable employee day shift_type)) LpConstraintEQ 0%Q.

Definition coverage_constraints : list LpConstraint :=
  day ← days; shift_type ← shift_types; [coverage day shift_type].

Definition preference_locks : list LpConstraint :=
  employee ← employees; day ← days; shift_type ← shift_types;
  if decide ((day, shift_type) ∉ wanted employee)
  then [lock employee day shift_type] else [].

Definition model : LpProblem :=
  mkProblem "Shift_Scheduling" LpMinimize
    (expr_sub (lpSum penalised_vars) (lpSum granted_vars))
    (coverage_constraints ++ preference_locks).
End model.

Lemma with_constraints_nil prob : with_constraints prob [] = prob.
Proof. destruct prob. unfold with_constraints. simpl. by rewrite app_nil_r. Qed.

Lemma with_constraints_app prob cs1 cs2 :
  with_constraints (with_constraints prob cs1) cs2 = with_constraints prob (cs1 ++ cs2).
Proof. unfold with_constraints. simpl. by rewrite app_assoc. Qed.

Lemma for_loop_constraints {A} (xs : list A) (body : LpProblem → A → result LpProblem)
    (g : A → list LpConstraint) prob :
  (∀ p x, x ∈ xs → body p x = Ok (with_constraints p (g x))) →
  for_loop xs body prob = Ok (with_constraints prob (xs ≫= g)).
Proof.
  revert prob. induction xs as [|x xs IH]; intros prob Hb; simpl.
  - by rewrite with_constraints_nil.
  - rewrite Hb by left. simpl. rewrite IH.
    + by rewrite with_constraints_app.
    + intros p y Hy. apply Hb. by right.
Qed.

Section build_ok.
Variable employees : list string.
Variable desired_shifts : desired_map.
Variable required_shifts : required_map.
Hypothesis present : inputs_present employees desired_shifts required_shifts.

Lemma subscript_desired e :
  e ∈ employees → subscript desired_shifts e = Ok (wanted_of desired_shifts e).
Proof.
  intros He. destruct present as [Hdes _]. destruct (Hdes e He) as [w Hw].
  unfold subscript, wanted_of. by rewrite Hw.
Qed.

Lemma objective_expr_ok :
  objective_expr employees desired_shifts (fill_shifts employees) fill_shortages =
  Ok (expr_sub (lpSum penalised_vars)
               (lpSum (granted_vars employees (wanted_of desired_shifts)))).
Proof.
  unfold objective_expr.
  rewrite (for_in_ok days _ (λ day, shift_type ← shift_types; [shortage_variable day shift_type])).
  2:{ intros d Hd. apply for_in_ok. intros s Hs.
      rewrite getitem_fill_shortages; [done|]. by apply elem_of_slots. }
  rewrite bind_Ok; cbv beta.
  rewrite (for_in_ok employees _ (λ employee, day ← days; shift_type ← shift_types;
    if decide ((day, shift_type) ∈ wanted_of desired_shifts employee)
    then [shift_variable employee day shift_type] else [])); [done|].
  intros e He. cbv beta. apply for_in_ok. intros d Hd. apply for_in_ok. intros s Hs.
  rewrite subscript_desired by done. simpl. case_decide; [|done].
  rewrite getitem_fill_shifts; [done..|]. by apply elem_of_slots.
Qed.

Lemma coverage_constraint_ok d s :
  (d, s) ∈ slots →
  coverage_constraint employees required_shifts (fill_shifts employees) fill_shortages d s =
  Ok (coverage employees (required_of required_shifts) d s).
Proof.
  intros Hin. unfold coverage_constraint.
  rewrite (for_in_ok employees _ (λ employee, [shift_variable employee d s])).
  2:{ intros e He. by rewrite getitem_fill_shifts. }
  simpl. rewrite getitem_fill_shortages by done. simpl.
  destruct present as [_ Hreq]. destruct (Hreq d s Hin) as (row & r & Hrow & Hr).
  unfold subscript, coverage, required_of. rewrite Hrow. simpl. by rewrite Hr.
Qed.

Lemma add_coverage_constraints_ok prob :
  add_coverage_constraints employees required_shifts (fill_shifts employees) fill_shortages prob =
  Ok (with_constraints prob (coverage_constraints employees (required_of required_shifts))).
Proof.
  unfold add_coverage_constraints, coverage_constraints.
  apply (for_loop_constraints days _
    (λ day, shift_type ← shift_types;
              [coverage employees (required_of required_shifts) day shift_type])).
  intros p d Hd.
  apply (for_loop_constraints shift_types _
    (λ shift_type, [coverage employees (required_of required_shifts) d shift_type])).
  intros p' s Hs. rewrite coverage_constraint_ok; [done|]. by apply elem_of_slots.
Qed.

Lemma add_preference_locks_ok prob :
  add_preference_locks employees desired_shifts (fill_shifts employees) prob =
  Ok (with_constraints prob (preference_locks employees (wanted_of desired_shifts))).
Proof.
  unfold add_preference_locks, preference_locks.
  apply (for_loop_constraints employees _
    (λ employee, day ← days; shift_type ← shift_types;
       if decide ((day, shift_type) ∉ wanted_of desired_shifts employee)
       then [lock employee day shift_type] else [])).
  intros p e He.
  apply (for_loop_constraints days _
    (λ day, shift_type ← shift_types;
       if decide ((day, shift_type) ∉ wanted_of desired_shifts e)
       then [lock e day shift_type] else [])).
  intros p' d Hd.
  apply (for_loop_constraints shift_types _
    (λ shift_type,
       if decide ((d, shift_type) ∉ wanted_of desired_shifts e)
       then [lock e d shift_type] else [])).
  intros p'' s Hs. rewrite subscript_desired by done. simpl.
  case_decide.
  - rewrite getitem_fill_shifts; [done..|]. by apply elem_of_slots.
  - by rewrite with_constraints_nil.
Qed.

Lemma build_problem_ok :
  build_problem employees desired_shifts required_shifts =
  Ok (fill_shifts employees, fill_shortages,
      model employees (wanted_of desired_shifts) (required_of required_shifts)).
Proof.
  unfold build_problem. rewrite declare_variables_split.
  rewrite objective_expr_ok. rewrite bind_Ok; cbv beta.
  rewrite add_coverage_constraints_ok. rewrite bind_Ok; cbv beta.
  rewrite add_preference_locks_ok. rewrite bind_Ok; cbv beta.
  by rewrite with_constraints_app.
Qed.
End build_ok.

(** ** Failing lookups *)

Lemma raises_not_Ok {A} (r : result A) a : raises r → r ≠ Ok a.
Proof. intros [k ->]. done. Qed.

Lemma subscript_raises `{Countable K, PyKey K} {V} (m : gmap K V) k :
  m !! k = None → raises (subscript m k).
Proof. intros Hk. unfold subscript. rewrite Hk. by eexists. Qed.

Lemma days_nonempty : 1 ∈ days.
Proof. by apply elem_of_days. Qed.

Lemma shift_types_nonempty : "Morning" ∈ shift_types.
Proof. apply elem_of_shift_types. by left. Qed.

Lemma objective_expr_raises employees desired_shifts shifts shortages e :
  e ∈ employees → desired_shifts !! e = None →
  raises (objective_expr employees desired_shifts shifts shortages).
Proof.
  intros He Hmiss. unfold objective_expr.
  apply bind_raises_r; intros penalised. apply bind_raises_l.
  apply (for_in_raises _ _ e He).
  apply (for_in_raises _ _ 1 days_nonempty).
  apply (for_in_raises _ _ "Morning" shift_types_nonempty).
  apply bind_raises_l. by apply subscript_raises.
Qed.

Lemma add_coverage_constraints_raises employees required_shifts shifts shortages prob d s :
  (d, s) ∈ slots →
  required_shifts !! d = None ∨
  (∃ row, required_shifts !! d = Some row ∧ row !! s = None) →
  raises (add_coverage_constraints employees required_shifts shifts shortages prob).
Proof.
  intros [Hd Hs]%elem_of_slots Hmiss. unfold add_coverage_constraints.
  apply (for_loop_raises _ _ d _ Hd); intros p.
  apply (for_loop_raises _ _ s _ Hs); intros p'.
  apply bind_raises_l. unfold coverage_constraint.
  apply bind_raises_r; intros staffed. apply bind_raises_r; intros shortage.
  destruct Hmiss as [Hday|(row & Hrow & Hcol)].
  - apply bind_raises_l. by apply subscript_raises.
  - unfold subscript at 1. rewrite Hrow, bind_Ok.
    apply bind_raises_l. by apply subscript_raises.
Qed.

Lemma build_problem_raises_desired employees desired_shifts required_shifts e :
  e ∈ employees → desired_shifts !! e = None →
  raises (build_problem employees desired_shifts required_shifts).
Proof.
  intros He Hmiss. unfold build_problem. rewrite declare_variables_split.
  apply bind_raises_l. by apply (objective_expr_raises _ _ _ _ e).
Qed.

Lemma build_problem_raises_required employees desired_shifts required_shifts d s :
  (d, s) ∈ slots →
  required_shifts !! d = None ∨
  (∃ row, required_shifts !! d = Some row ∧ row !! s = None) →
  raises (build_problem employees desired_shifts required_shifts).
Proof.
  intros Hin Hmiss. unfold build_problem. rewrite declare_variables_split.
  apply bind_raises_r; intros obj. apply bind_raises_l.
  by apply (add_coverage_constraints_raises _ _ _ _ _ d s).
Qed.

Lemma build_problem_Ok_present employees desired_shifts required_shifts built :
  build_problem employees desired_shifts required_shifts = Ok built →
  inputs_present employees desired_shifts required_shifts.
Proof.
  intros Hok. split.
  - intros e He. destruct (desired_shifts !! e) eqn:Hdes; [by eexists|].
    exfalso. revert Hok. apply raises_not_Ok.
    by apply (build_problem_raises_desired _ _ _ e).
  - intros d s Hin.
    destruct (required_shifts !! d) as [row|] eqn:Hrow.
    + destruct (row !! s) as [r|] eqn:Hr; [by eauto|].
      exfalso. revert Hok. apply raises_not_Ok.
      apply (build_problem_raises_required _ _ _ d s Hin). right. eauto.
    + exfalso. revert Hok. apply raises_not_Ok.
      apply (build_problem_raises_required _ _ _ d s Hin). by left.
Qed.

(** A call returns exactly when every lookup succeeds, and then the tables
    are read off the solver's values for the model. *)
Lemma generate_shifts_Ok solve employees desired_shifts required_shifts tables :
  generate_shifts solve employees desired_shifts required_shifts = Ok tables ↔
  inputs_present employees desired_shifts required_shifts ∧
  tables = extract_results (fill_shifts employees) fill_shortages
             (solve (model employees (wanted_of desired_shifts) (required_of required_shifts))).
Proof.
  unfold generate_shifts. split.
  - intros Hok.
    destruct (build_problem employees desired_shifts required_shifts) as [built|] eqn:Hb;
      [|done].
    apply build_problem_Ok_present in Hb as Hp. split; [done|].
    rewrite (build_problem_ok _ _ _ Hp) in Hb. injection Hb as <-.
    simpl in Hok. congruence.
  - intros [Hp ->]. by rewrite (build_problem_ok _ _ _ Hp).
Qed.

(** ** Sums of rationals *)

Definition sum_over {A} (xs : list A) (f : A → Q) : Q := sumQ (map f xs).

Lemma sum_over_cons {A} (x : A) xs f : sum_over (x :: xs) f = (f x + sum_over xs f)%Q.
Proof. done. Qed.

Lemma sumQ_app (qs1 qs2 : list Q) : (sumQ (qs1 ++ qs2) == sumQ qs1 + sumQ qs2)%Q.
Proof. induction qs1 as [|q qs1 IH]; simpl; [|rewrite IH]; lra. Qed.

Lemma sum_over_bind {A B} (f : B → Q) (g : A → list B) (xs : list A) :
  (sumQ (map f (xs ≫= g)) == sum_over xs (λ x, sumQ (map f (g x))))%Q.
Proof.
  induction xs as [|x xs IH]; [reflexivity|].
  rewrite bind_cons, map_app, sumQ_app, sum_over_cons, IH. reflexivity.
Qed.

Lemma sum_over_le {A} (xs : list A) (f g : A → Q) :
  (∀ x, x ∈ xs → (f x <= g x)%Q) → (sum_over xs f <= sum_over xs g)%Q.
Proof.
  induction xs as [|x xs IH]; intros Hle; [apply Qle_refl|].
  rewrite !sum_over_cons.
  assert (f x <= g x)%Q by (apply Hle; left).
  assert (sum_over xs f <= sum_over xs g)%Q by (apply IH; intros; apply Hle; by right).
  lra.
Qed.

Lemma sum_over_ext {A} (xs : list A) (f g : A → Q) :
  (∀ x, x ∈ xs → (f x == g x)%Q) → (sum_over xs f == sum_over xs g)%Q.
Proof.
  intros Heq. apply Qle_antisym; apply sum_over_le; intros x Hx; rewrite (Heq x Hx); apply Qle_refl.
Qed.

Lemma Qeq_ge (a b : Q) : (a == b)%Q → (b <= a)%Q.
Proof. intros ->. apply Qle_refl. Qed.

(** Termwise bounded sums that are equal are equal termwise. *)
Lemma sum_over_le_eq {A} (xs : list A) (f g : A → Q) :
  (∀ x, x ∈ xs → (f x <= g x)%Q) → (sum_over xs g <= sum_over xs f)%Q →
  ∀ x, x ∈ xs → (f x == g x)%Q.
Proof.
  induction xs as [|y xs IH]; intros Hle Hsum x Hx; [by apply elem_of_nil in Hx|].
  rewrite !sum_over_cons in Hsum.
  assert (f y <= g y)%Q by (apply Hle; left).
  assert (sum_over xs f <= sum_over xs g)%Q by (apply sum_over_le; intros; apply Hle; by right).
  apply elem_of_cons in Hx as [->|Hx]; [lra|].
  apply IH; [intros; apply Hle; by right|lra|done].
Qed.

Lemma sum_over_indicator {A} (P : A → Prop) `{∀ x, Decision (P x)} (xs : list A) :
  (sum_over xs (λ x, if decide (P x) then 1 else 0) ==
   inject_Z (Z.of_nat (length (filter P xs))))%Q.
Proof.
  induction xs as [|x xs IH]; [reflexivity|].
  rewrite sum_over_cons, IH, filter_cons. case_decide; simpl length; [|lra].
  rewrite Nat2Z.inj_succ, <- Z.add_1_l, inject_Z_plus. reflexivity.
Qed.

(** ** Evaluating expressions *)

Lemma eval_lpSum xs v : (eval (lpSum xs) v == sum_over xs (λ x, v (var_ident x)))%Q.
Proof.
  unfold eval, lpSum, sum_over. simpl. rewrite map_map. simpl.
  induction xs as [|x xs IH]; simpl in *; lra.
Qed.

Lemma eval_expr_of_var x v : (eval (expr_of_var x) v == v (var_ident x))%Q.
Proof. unfold eval, expr_of_var. simpl. lra. Qed.

Lemma eval_expr_add a b v : (eval (expr_add a b) v == eval a v + eval b v)%Q.
Proof. unfold eval, expr_add. simpl. rewrite map_app, sumQ_app. lra. Qed.

Lemma eval_expr_neg a v : (eval (expr_neg a) v == - eval a v)%Q.
Proof.
  unfold eval, expr_neg. simpl. rewrite map_map. simpl.
  induction (terms a) as [|t ts IH]; simpl in *; lra.
Qed.

Lemma eval_expr_sub a b v : (eval (expr_sub a b) v == eval a v - eval b v)%Q.
Proof. unfold expr_sub. rewrite eval_expr_add, eval_expr_neg. lra. Qed.

(** ** What the model says *)

Lemma elem_of_slot_bind {B} (h : Z → string → list B) (y : B) :
  y ∈ (day ← days; shift_type ← shift_types; h day shift_type) ↔
  ∃ d s, (d, s) ∈ slots ∧ y ∈ h d s.
Proof.
  split.
  - intros (d & (s & Hy & Hs)%list_elem_of_bind & Hd)%list_elem_of_bind.
    exists d, s. by rewrite elem_of_slots.
  - intros (d & s & [Hd Hs]%elem_of_slots & Hy).
    apply list_elem_of_bind. exists d. split; [|done].
    apply list_elem_of_bind. by exists s.
Qed.

Lemma fst_terms_lpSum xs : (terms (lpSum xs)).*1 = xs.
Proof. unfold lpSum. simpl. induction xs; csimpl in *; congruence. Qed.

Lemma fst_terms_expr_neg a : (terms (expr_neg a)).*1 = (terms a).*1.
Proof. unfold expr_neg. simpl. induction (terms a); csimpl in *; congruence. Qed.

Section model_facts.
Variable employees : list string.
Variable wanted : string → gset (Z * string).
Variable required : Z → string → Z.

Local Abbreviation model := (model employees wanted required).

Lemma elem_of_penalised_vars x :
  x ∈ penalised_vars ↔ ∃ d s, (d, s) ∈ slots ∧ x = shortage_variable d s.
Proof.
  unfold penalised_vars. rewrite elem_of_slot_bind.
  split; intros (d & s & Hin & Hx); exists d, s; (split; [done|]);
    by apply list_elem_of_singleton.
Qed.

Lemma elem_of_granted_vars x :
  x ∈ granted_vars employees wanted ↔
  ∃ e d s, e ∈ employees ∧ (d, s) ∈ slots ∧ (d, s) ∈ wanted e ∧ x = shift_variable e d s.
Proof.
  unfold granted_vars. split.
  - intros (e & (d & s & Hin & Hx)%elem_of_slot_bind & He)%list_elem_of_bind.
    case_decide; [|by apply elem_of_nil in Hx].
    apply list_elem_of_singleton in Hx. exists e, d, s. by repeat split.
  - intros (e & d & s & He & Hin & Hw & ->).
    apply list_elem_of_bind. exists e. split; [|done].
    apply elem_of_slot_bind. exists d, s. split; [done|].
    rewrite decide_True by done. by apply list_elem_of_singleton.
Qed.

Lemma elem_of_coverage_constraints c :
  c ∈ coverage_constraints employees required ↔
  ∃ d s, (d, s) ∈ slots ∧ c = coverage employees required d s.
Proof.
  unfold coverage_constraints. rewrite elem_of_slot_bind.
  split; intros (d & s & Hin & Hx); exists d, s; (split; [done|]);
    by apply list_elem_of_singleton.
Qed.

Lemma elem_of_preference_locks c :
  c ∈ preference_locks employees wanted ↔
  ∃ e d s, e ∈ employees ∧ (d, s) ∈ slots ∧ ((d, s) ∉ wanted e) ∧ c = lock e d s.
Proof.
  unfold preference_locks. split.
  - intros (e & (d & s & Hin & Hx)%elem_of_slot_bind & He)%list_elem_of_bind.
    case_decide; [|by apply elem_of_nil in Hx].
    apply list_elem_of_singleton in Hx. exists e, d, s. by repeat split.
  - intros (e & d & s & He & Hin & Hw & ->).
    apply list_elem_of_bind. exists e. split; [|done].
    apply elem_of_slot_bind. exists d, s. split; [done|].
    rewrite decide_True by done. by apply list_elem_of_singleton.
Qed.

Lemma elem_of_staffed x d s :
  x ∈ (employee ← employees; [shift_variable employee d s]) ↔
  ∃ e, e ∈ employees ∧ x = shift_variable e d s.
Proof.
  rewrite list_elem_of_bind. setoid_rewrite list_elem_of_singleton. naive_solver.
Qed.

Lemma vars_coverage d s :
  (terms (lhs (coverage employees required d s))).*1 =
  (employee ← employees; [shift_variable employee d s]) ++ [shortage_variable d s].
Proof.
  unfold coverage, expr_add, expr_of_var. cbn [lhs terms].
  by rewrite fmap_app, fst_terms_lpSum.
Qed.

Lemma vars_lock e d s : (terms (lhs (lock e d s))).*1 = [shift_variable e d s].
Proof. done. Qed.

(** The variables of the model are the 60 shortage variables and one
    assignment variable per listed employee and slot. *)
Lemma elem_of_variables x :
  x ∈ variables model ↔
  (∃ d s, (d, s) ∈ slots ∧ x = shortage_variable d s) ∨
  (∃ e d s, e ∈ employees ∧ (d, s) ∈ slots ∧ x = shift_variable e d s).
Proof.
  unfold variables, model. cbn [objective constraints].
  unfold expr_sub, expr_add. cbn [terms].
  rewrite fmap_app, fst_terms_expr_neg, !fst_terms_lpSum.
  split.
  - intros [[Hx|Hx]%elem_of_app|(c & Hx & Hc)%list_elem_of_bind]%elem_of_app.
    + left. by apply elem_of_penalised_vars.
    + apply elem_of_granted_vars in Hx as (e & d & s & He & Hin & _ & ->).
      right. by exists e, d, s.
    + apply elem_of_app in Hc as [Hc|Hc].
      * apply elem_of_coverage_constraints in Hc as (d & s & Hin & ->).
        rewrite vars_coverage in Hx. apply elem_of_app in Hx as [Hx|Hx].
        -- apply elem_of_staffed in Hx as (e & He & ->). right. by exists e, d, s.
        -- apply list_elem_of_singleton in Hx as ->. left. by exists d, s.
      * apply elem_of_preference_locks in Hc as (e & d & s & He & Hin & _ & ->).
        rewrite vars_lock in Hx. apply list_elem_of_singleton in Hx as ->.
        right. by exists e, d, s.
  - intros [Hx|(e & d & s & He & Hin & ->)]; apply elem_of_app.
    + left. apply elem_of_app. left. by apply elem_of_penalised_vars.
    + right. apply list_elem_of_bind.
      exists (coverage employees required d s). split.
      * rewrite vars_coverage. apply elem_of_app. left.
        apply elem_of_staffed. by exists e.
      * apply elem_of_app. left. apply elem_of_coverage_constraints. by exists d, s.
Qed.

Definition staffing (v : var_id → Q) (d : Z) (s : string) : Q :=
  sum_over employees (λ e, v (ShiftVar e d s)).

Lemma satisfies_coverage v d s :
  satisfies v (coverage employees required d s) ↔
  (inject_Z (required d s) <= staffing v d s + v (ShortageVar d s))%Q.
Proof.
  unfold satisfies, coverage, staffing. simpl.
  rewrite eval_expr_add, eval_lpSum, eval_expr_of_var.
  unfold sum_over at 1. rewrite sum_over_bind. simpl.
  rewrite (sum_over_ext employees _ (λ e, v (ShiftVar e d s))); [done|].
  intros e _. lra.
Qed.

Lemma satisfies_lock v e d s :
  satisfies v (lock e d s) ↔ (v (ShiftVar e d s) == 0)%Q.
Proof. unfold satisfies, lock. simpl. by rewrite eval_expr_of_var. Qed.

Lemma elem_of_constraints_model c :
  c ∈ constraints model ↔
  (∃ d s, (d, s) ∈ slots ∧ c = coverage employees required d s) ∨
  (∃ e d s, e ∈ employees ∧ (d, s) ∈ slots ∧ ((d, s) ∉ wanted e) ∧ c = lock e d s).
Proof.
  unfold model. cbn [constraints].
  by rewrite elem_of_app, elem_of_coverage_constraints, elem_of_preference_locks.
Qed.

Record feasible_values (v : var_id → Q) : Prop := {
  shortage_nonneg d s : (d, s) ∈ slots → (0 <= v (ShortageVar d s))%Q;
  shift_binary e d s :
    e ∈ employees → (d, s) ∈ slots → (v (ShiftVar e d s) == 0 ∨ v (ShiftVar e d s) == 1)%Q;
  covered d s :
    (d, s) ∈ slots → (inject_Z (required d s) <= staffing v d s + v (ShortageVar d s))%Q;
  locked e d s :
    e ∈ employees → (d, s) ∈ slots → (d, s) ∉ wanted e → (v (ShiftVar e d s) == 0)%Q
}.

Lemma feasible_model v : feasible model v ↔ feasible_values v.
Proof.
  unfold feasible. split.
  - intros [Hdom Hcs]. split.
    + intros d s Hin.
      destruct (Hdom (shortage_variable d s)) as [Hlo _]; [|done].
      apply elem_of_variables. left. eauto.
    + intros e d s He Hin.
      destruct (Hdom (shift_variable e d s)) as (_ & _ & Hbin); [|done].
      apply elem_of_variables. right. naive_solver.
    + intros d s Hin. apply satisfies_coverage, Hcs.
      apply elem_of_constraints_model. left. by exists d, s.
    + intros e d s He Hin Hw. apply satisfies_lock, Hcs.
      apply elem_of_constraints_model. right. by exists e, d, s.
  - intros [Hnn Hbin Hcov Hlock]. split.
    + intros x [(d & s & Hin & ->)|(e & d & s & He & Hin & ->)]%elem_of_variables.
      * repeat split. cbn. auto.
      * repeat split. cbn. auto.
    + intros c [(d & s & Hin & ->)|(e & d & s & He & Hin & Hw & ->)]%elem_of_constraints_model.
      * apply satisfies_coverage. auto.
      * apply satisfies_lock. auto.
Qed.
End model_facts.

(** ** The optimum *)

Section optimum.
Variable employees : list string.
Variable wanted : string → gset (Z * string).
Variable required : Z → string → Z.

Local Abbreviation model := (model employees wanted required).

(** How many listed employees want a slot (an employee listed twice counts
    twice, as in the coverage sum). *)
Definition headcount (d : Z) (s : string) : nat :=
  length (filter (λ e, (d, s) ∈ wanted e) employees).

(** Everyone works every slot they asked for and nothing else; what is
    still missing is the shortage. *)
Definition canonical (x : var_id) : Q :=
  match x with
  | ShiftVar e d s => if decide ((d, s) ∈ wanted e) then 1%Q else 0%Q
  | ShortageVar d s => inject_Z (Z.max 0 (required d s - Z.of_nat (headcount d s)))
  end.

Definition total_shortage (v : var_id → Q) : Q :=
  sum_over days (λ d, sum_over shift_types (λ s, v (ShortageVar d s))).

Definition total_granted (v : var_id → Q) : Q :=
  sum_over employees (λ e, sum_over days (λ d, sum_over shift_types (λ s,
    if decide ((d, s) ∈ wanted e) then v (ShiftVar e d s) else 0%Q))).

Lemma eval_objective v :
  (eval (objective model) v == total_shortage v - total_granted v)%Q.
Proof.
  unfold model. cbn [objective]. rewrite eval_expr_sub, !eval_lpSum.
  apply Qplus_comp; [|apply Qopp_comp].
  - unfold penalised_vars, total_shortage, sum_over at 1.
    rewrite sum_over_bind. apply sum_over_ext; intros d _.
    rewrite sum_over_bind. apply sum_over_ext; intros s _. simpl. lra.
  - unfold granted_vars, total_granted, sum_over at 1.
    rewrite sum_over_bind. apply sum_over_ext; intros e _.
    rewrite sum_over_bind. apply sum_over_ext; intros d _.
    rewrite sum_over_bind. apply sum_over_ext; intros s _.
    case_decide; simpl; lra.
Qed.

Lemma staffing_canonical d s :
  (staffing employees canonical d s == inject_Z (Z.of_nat (headcount d s)))%Q.
Proof. unfold staffing, headcount. simpl. apply sum_over_indicator. Qed.

Lemma inject_Z_max_0 z : (inject_Z (Z.max 0 z) == Qmax 0 (inject_Z z))%Q.
Proof.
  destruct (Z.max_spec 0 z) as [[Hlt ->]|[Hle ->]].
  - rewrite Q.max_r; [reflexivity|]. change 0%Q with (inject_Z 0). rewrite <- Zle_Qle. lia.
  - rewrite Q.max_l; [reflexivity|]. change 0%Q with (inject_Z 0). rewrite <- Zle_Qle. lia.
Qed.

Lemma canonical_shortage d s :
  (canonical (ShortageVar d s) ==
   Qmax 0 (inject_Z (required d s) - inject_Z (Z.of_nat (headcount d s))))%Q.
Proof.
  simpl. rewrite inject_Z_max_0. unfold Z.sub.
  rewrite inject_Z_plus, inject_Z_opp. reflexivity.
Qed.

Lemma canonical_feasible : feasible_values employees wanted required canonical.
Proof.
  split.
  - intros d s _. rewrite canonical_shortage. apply Q.le_max_l.
  - intros e d s _ _. simpl. case_decide; [by right|by left].
  - intros d s _. rewrite staffing_canonical, canonical_shortage.
    pose proof (Q.le_max_r 0 (inject_Z (required d s) - inject_Z (Z.of_nat (headcount d s)))).
    lra.
  - intros e d s _ _ Hw. simpl. by rewrite decide_False.
Qed.

Section bounds.
Variable v : var_id → Q.
Hypothesis Hv : feasible_values employees wanted required v.

Lemma shift_le_canonical e d s :
  e ∈ employees → (d, s) ∈ slots → (v (ShiftVar e d s) <= canonical (ShiftVar e d s))%Q.
Proof.
  intros He Hin. simpl. case_decide as Hw.
  - destruct (shift_binary _ _ _ _ Hv e d s He Hin) as [H0|H1]; lra.
  - rewrite (locked _ _ _ _ Hv e d s He Hin Hw). apply Qle_refl.
Qed.

Lemma staffing_le_headcount d s :
  (d, s) ∈ slots → (staffing employees v d s <= inject_Z (Z.of_nat (headcount d s)))%Q.
Proof.
  intros Hin. rewrite <- staffing_canonical. apply sum_over_le.
  intros e He. by apply shift_le_canonical.
Qed.

Lemma shortage_ge_canonical d s :
  (d, s) ∈ slots → (canonical (ShortageVar d s) <= v (ShortageVar d s))%Q.
Proof.
  intros Hin. rewrite canonical_shortage. apply Q.max_lub.
  - by apply (shortage_nonneg _ _ _ _ Hv).
  - pose proof (covered _ _ _ _ Hv d s Hin).
    pose proof (staffing_le_headcount d s Hin). lra.
Qed.

Lemma total_shortage_ge : (total_shortage canonical <= total_shortage v)%Q.
Proof.
  apply sum_over_le; intros d Hd. apply sum_over_le; intros s Hs.
  apply shortage_ge_canonical. by apply elem_of_slots.
Qed.

Lemma granted_term_le e d s :
  e ∈ employees → (d, s) ∈ slots →
  ((if decide ((d, s) ∈ wanted e) then v (ShiftVar e d s) else 0) <=
   (if decide ((d, s) ∈ wanted e) then canonical (ShiftVar e d s) else 0))%Q.
Proof.
  intros He Hin. case_decide; [by apply shift_le_canonical|apply Qle_refl].
Qed.

Lemma total_granted_le : (total_granted v <= total_granted canonical)%Q.
Proof.
  apply sum_over_le; intros e He. apply sum_over_le; intros d Hd.
  apply sum_over_le; intros s Hs. apply granted_term_le; [done|by apply elem_of_slots].
Qed.
End bounds.

(** The model always has an optimal solution. *)
Lemma canonical_optimal : optimal model canonical.
Proof.
  split; [apply feasible_model, canonical_feasible|].
  intros v' Hv'%feasible_model. cbn [prob_sense model].
  rewrite !eval_objective.
  pose proof (total_shortage_ge v' Hv'). pose proof (total_granted_le v' Hv'). lra.
Qed.

(** And only one, on the variables of the model. *)
Lemma optimal_values v :
  optimal model v →
  (∀ e d s, e ∈ employees → (d, s) ∈ slots →
     (v (ShiftVar e d s) == canonical (ShiftVar e d s))%Q) ∧
  (∀ d s, (d, s) ∈ slots → (v (ShortageVar d s) == canonical (ShortageVar d s))%Q).
Proof.
  intros [Hv%feasible_model Hmin].
  specialize (Hmin canonical (proj1 canonical_optimal)).
  cbn [prob_sense model] in Hmin. rewrite !eval_objective in Hmin.
  pose proof (total_shortage_ge v Hv) as Hs. pose proof (total_granted_le v Hv) as Hg.
  assert (total_shortage v <= total_shortage canonical)%Q as Hs' by lra.
  assert (total_granted canonical <= total_granted v)%Q as Hg' by lra.
  split.
  - intros e d s He Hin. apply elem_of_slots in Hin as Hds. destruct Hds as [Hd Hds].
    destruct (decide ((d, s) ∈ wanted e)) as [Hw|Hw].
    + pose proof (sum_over_le_eq employees _ _
        (λ e' He', sum_over_le days _ _ (λ d' Hd', sum_over_le shift_types _ _
           (λ s' Hs', granted_term_le v Hv e' d' s' He'
                        (proj2 (elem_of_slots d' s') (conj Hd' Hs')))))
        Hg' e He) as Hrow.
      pose proof (sum_over_le_eq days _ _
        (λ d' Hd', sum_over_le shift_types _ _
           (λ s' Hs', granted_term_le v Hv e d' s' He
                        (proj2 (elem_of_slots d' s') (conj Hd' Hs'))))
        (Qeq_ge _ _ Hrow) d Hd) as Hday.
      pose proof (sum_over_le_eq shift_types _ _
        (λ s' Hs', granted_term_le v Hv e d s' He
                     (proj2 (elem_of_slots d s') (conj Hd Hs')))
        (Qeq_ge _ _ Hday) s Hds) as Hterm.
      cbv beta in Hterm. by rewrite !decide_True in Hterm by done.
    + simpl. rewrite decide_False by done. by apply (locked _ _ _ _ Hv).
  - intros d s Hin. apply elem_of_slots in Hin as Hds. destruct Hds as [Hd Hds].
    symmetry.
    pose proof (sum_over_le_eq days _ _
      (λ d' Hd', sum_over_le shift_types _ _
         (λ s' Hs', shortage_ge_canonical v Hv d' s'
                      (proj2 (elem_of_slots d' s') (conj Hd' Hs'))))
      Hs' d Hd) as Hday.
    apply (sum_over_le_eq shift_types _ _
      (λ s' Hs', shortage_ge_canonical v Hv d s'
                   (proj2 (elem_of_slots d s') (conj Hd Hs')))
      (Qeq_ge _ _ Hday) s Hds).
Qed.
End optimum.

(** ** The result tables *)

Lemma nonzero_true q : nonzero q = true ↔ ¬ (q == 0)%Q.
Proof.
  unfold nonzero. rewrite negb_true_iff. split.
  - intros Hb Heq. apply Qeq_bool_iff in Heq. congruence.
  - intros Hne. destruct (Qeq_bool q 0) eqn:Hb; [|done].
    by apply Qeq_bool_iff in Hb.
Qed.

Lemma nonzero_false q : nonzero q = false ↔ (q == 0)%Q.
Proof.
  unfold nonzero. rewrite negb_false_iff. apply Qeq_bool_iff.
Qed.

Lemma position_Some x xs i : position x xs = Some i → xs !! i = Some x.
Proof.
  revert i. induction xs as [|y xs IH]; intros i; simpl; [done|].
  case_decide; subst.
  - by intros [= <-].
  - destruct (position x xs) as [j|]; [|done]. intros [= <-]. simpl. by apply IH.
Qed.

Lemma position_None x xs : position x xs = None ↔ x ∉ xs.
Proof.
  induction xs as [|y xs IH]; simpl.
  - split; [intros _; apply not_elem_of_nil|done].
  - rewrite not_elem_of_cons. case_decide; subst; [naive_solver|].
    destruct (position x xs); simpl; naive_solver.
Qed.

Lemma position_elem_of x xs : x ∈ xs → ∃ i, position x xs = Some i.
Proof.
  intros Hin. destruct (position x xs) as [i|] eqn:Hp; [by exists i|].
  by apply position_None in Hp.
Qed.

Lemma elem_of_sorted_unique x xs : x ∈ sorted_unique xs ↔ x ∈ xs.
Proof.
  unfold sorted_unique. by rewrite merge_sort_Permutation, elem_of_remove_dups.
Qed.

Lemma NoDup_sorted_unique xs : NoDup (sorted_unique xs).
Proof. unfold sorted_unique. rewrite merge_sort_Permutation. apply NoDup_remove_dups. Qed.

Lemma NoDup_omap {A B} (g : A → option B) (l : list A) :
  NoDup l →
  (∀ x y z, x ∈ l → y ∈ l → g x = Some z → g y = Some z → x = y) →
  NoDup (omap g l).
Proof.
  induction 1 as [|x l Hx Hl IH]; intros Hinj; simpl; [apply NoDup_nil_2|].
  assert (NoDup (omap g l)) as Hrest.
  { apply IH. intros x' y' z Hx' Hy'. apply Hinj; by right. }
  destruct (g x) as [z|] eqn:Hgx; [|done].
  apply NoDup_cons. split; [|done].
  intros (y & Hy & Hgy)%list_elem_of_omap.
  apply Hx. rewrite (Hinj x y z); [done|by left|by right|done|done].
Qed.

Lemma filter_key_unique {A K} `{EqDecision K} (key : A → K) (xs : list A) x :
  NoDup (key <$> xs) → x ∈ xs → filter (λ y, key y = key x) xs = [x].
Proof.
  induction xs as [|y xs IH]; intros Hnd Hx; [by apply elem_of_nil in Hx|].
  rewrite fmap_cons in Hnd. apply NoDup_cons in Hnd as [Hy Hnd].
  rewrite filter_cons. apply elem_of_cons in Hx as [->|Hx].
  - rewrite decide_True by done. f_equal.
    destruct (filter (λ y0, key y0 = key y) xs) as [|z zs] eqn:Hf; [done|].
    exfalso. apply Hy.
    assert (z ∈ filter (λ y0, key y0 = key y) xs) as Hz by (rewrite Hf; left).
    apply list_elem_of_filter in Hz as [<- Hz]. apply list_elem_of_fmap. by exists z.
  - rewrite decide_False; [by apply IH|].
    intros Heq. apply Hy. rewrite Heq. apply list_elem_of_fmap. by exists x.
Qed.

Lemma filter_key_none {A} (P : A → Prop) `{∀ x, Decision (P x)} (xs : list A) :
  (∀ x, x ∈ xs → ¬ P x) → filter P xs = [].
Proof.
  intros Hno. destruct (filter P xs) as [|z zs] eqn:Hf; [done|].
  assert (z ∈ filter P xs) as Hz by (rewrite Hf; left).
  apply list_elem_of_filter in Hz as [HP Hz]. by destruct (Hno z Hz).
Qed.

Lemma mean_singleton q : (mean [q] == q)%Q.
Proof.
  unfold mean. cbn [length map sumQ]. change (inject_Z (Z.of_nat 1)) with 1%Q.
  unfold Qdiv. change (/ 1)%Q with 1%Q. lra.
Qed.

(** Reading a cell of a pivot table. *)
Lemma cell_pivot_table records row col :
  cell (pivot_table records) row col =
    if decide (row ∈ map (λ r, r.1.1) records ∧ col ∈ map (λ r, r.1.2) records)
    then Some (pivot_cell records 0%Q row col) else None.
Proof.
  unfold cell, pivot_table. cbn [index columns values].
  case_decide as Hin.
  - destruct Hin as [Hr Hc].
    apply elem_of_sorted_unique, position_elem_of in Hr as [i Hi].
    apply elem_of_sorted_unique, position_elem_of in Hc as [j Hj].
    rewrite Hi, Hj. simpl.
    apply position_Some in Hi, Hj.
    rewrite list_lookup_fmap, Hi. simpl. by rewrite list_lookup_fmap, Hj.
  - destruct (position row _) as [i|] eqn:Hi; [|done]. simpl.
    destruct (position col _) as [j|] eqn:Hj; [|done]. exfalso. apply Hin.
    apply position_Some, list_elem_of_lookup_2 in Hi, Hj.
    by rewrite !elem_of_sorted_unique in Hi, Hj.
Qed.

(** Reading a row of the shortage table. *)
Lemma cell_shortage_frame records label :
  cell (shortage_frame records) label "Shortage" =
    snd <$> (i ← position label (map fst records); records !! i).
Proof.
  unfold cell, shortage_frame. cbn [index columns values].
  destruct (position label _) as [i|]; [|done]. simpl.
  rewrite list_lookup_fmap. by destruct (records !! i).
Qed.

Lemma cell_shortage_frame_Some records label q :
  cell (shortage_frame records) label "Shortage" = Some q → (label, q) ∈ records.
Proof.
  rewrite cell_shortage_frame.
  destruct (position label _) as [i|] eqn:Hi; [|done]. simpl.
  destruct (records !! i) as [[l q']|] eqn:Hr; [|done]. intros [= <-].
  apply position_Some in Hi. rewrite list_lookup_fmap, Hr in Hi. injection Hi as ->.
  by apply list_elem_of_lookup_2 in Hr.
Qed.

Lemma cell_shortage_frame_None records label :
  cell (shortage_frame records) label "Shortage" = None ↔ label ∉ map fst records.
Proof.
  rewrite cell_shortage_frame, <- position_None.
  destruct (position label _) as [i|] eqn:Hi; [|done]. simpl.
  apply position_Some in Hi. rewrite list_lookup_fmap in Hi.
  by destruct (records !! i).
Qed.

Section extraction.
Variable employees : list string.
Variable v : var_id → Q.

Local Abbreviation records := (shifts_data (fill_shifts employees) v).
Local Abbreviation shortage_records := (shortages_data fill_shortages v).

Lemma elem_of_shifts_data e l q :
  (e, l, q) ∈ records ↔
  ∃ d s, e ∈ employees ∧ (d, s) ∈ slots ∧ l = slot_label d s ∧
         q = v (ShiftVar e d s) ∧ nonzero q = true.
Proof.
  unfold shifts_data. rewrite list_elem_of_omap. split.
  - intros ([[[e' d] s] x] & Hin & Hf).
    apply elem_of_items_shifts in Hin as (He & Hin & ->). simpl in Hf.
    destruct (nonzero (v (ShiftVar e' d s))) eqn:Hnz; [|done].
    injection Hf as <- <- <-. by exists d, s.
  - intros (d & s & He & Hin & -> & -> & Hnz).
    exists ((e, d, s), shift_variable e d s). split.
    + by apply elem_of_items_shifts.
    + simpl. by rewrite Hnz.
Qed.

Lemma elem_of_shortages_data l q :
  (l, q) ∈ shortage_records ↔
  ∃ d s, (d, s) ∈ slots ∧ l = slot_label d s ∧ q = v (ShortageVar d s) ∧ nonzero q = true.
Proof.
  unfold shortages_data. rewrite list_elem_of_omap. split.
  - intros ([[d s] x] & Hin & Hf).
    apply elem_of_items_shortages in Hin as (Hin & ->). simpl in Hf.
    destruct (nonzero (v (ShortageVar d s))) eqn:Hnz; [|done].
    injection Hf as <- <-. by exists d, s.
  - intros (d & s & Hin & -> & -> & Hnz).
    exists ((d, s), shortage_variable d s). split.
    + by apply elem_of_items_shortages.
    + simpl. by rewrite Hnz.
Qed.

Lemma NoDup_items_shifts : NoDup (PyDict.items (fill_shifts employees)).
Proof. apply (NoDup_fmap_1 fst), NoDup_keys_fill_shifts. Qed.

(** No two records share an employee and a label. *)
Lemma NoDup_shifts_data_keys : NoDup (fst <$> records).
Proof.
  unfold shifts_data. rewrite list_fmap_omap. apply NoDup_omap; [apply NoDup_items_shifts|].
  intros [[[e1 d1] s1] x1] [[[e2 d2] s2] x2] [e l].
  intros (He1 & Hin1 & ->)%elem_of_items_shifts (He2 & Hin2 & ->)%elem_of_items_shifts.
  simpl. destruct (nonzero _); [|done]. destruct (nonzero _); [|done]. simpl.
  intros [= -> <-] [= -> Hl].
  by apply slot_label_inj in Hl as [= -> ->].
Qed.

Lemma pivot_cell_nonzero e d s :
  e ∈ employees → (d, s) ∈ slots → nonzero (v (ShiftVar e d s)) = true →
  filter (λ r, r.1.1 = e ∧ r.1.2 = slot_label d s) records =
    [(e, slot_label d s, v (ShiftVar e d s))].
Proof.
  intros He Hin Hnz.
  rewrite <- (filter_key_unique fst records (e, slot_label d s, v (ShiftVar e d s))).
  - apply list_filter_iff. intros [[e' l'] q']. simpl. naive_solver.
  - apply NoDup_shifts_data_keys.
  - apply elem_of_shifts_data. by exists d, s.
Qed.

Lemma pivot_cell_zero e d s :
  e ∈ employees → (d, s) ∈ slots → nonzero (v (ShiftVar e d s)) = false →
  filter (λ r, r.1.1 = e ∧ r.1.2 = slot_label d s) records = [].
Proof.
  intros He Hin Hz. apply filter_key_none.
  intros [[e' l'] q'] (d' & s' & _ & Hin' & -> & -> & Hnz)%elem_of_shifts_data [Heq Hl].
  simpl in Heq, Hl. subst e'.
  apply slot_label_inj in Hl as [= -> ->]; [|done..]. congruence.
Qed.

Lemma pivot_cell_value e d s :
  e ∈ employees → (d, s) ∈ slots →
  (pivot_cell records 0 e (slot_label d s) == v (ShiftVar e d s))%Q.
Proof.
  intros He Hin. unfold pivot_cell.
  destruct (nonzero (v (ShiftVar e d s))) eqn:Hnz.
  - rewrite pivot_cell_nonzero by done. apply mean_singleton.
  - rewrite pivot_cell_zero by done. symmetry. by apply nonzero_false.
Qed.

(** What the assignment table shows for a listed employee and a slot is the
    solved value of that assignment variable. *)
Lemma assigned_value e d s :
  e ∈ employees → (d, s) ∈ slots →
  (assigned (pivot_table records) e d s == v (ShiftVar e d s))%Q.
Proof.
  intros He Hin. unfold assigned. rewrite cell_pivot_table.
  case_decide as Hrc; simpl; [by apply pivot_cell_value|].
  destruct (nonzero (v (ShiftVar e d s))) eqn:Hnz; [|symmetry; by apply nonzero_false].
  exfalso. apply Hrc.
  assert ((e, slot_label d s, v (ShiftVar e d s)) ∈ records) as Hr.
  { apply elem_of_shifts_data. by exists d, s. }
  split; apply list_elem_of_fmap;
    by exists (e, slot_label d s, v (ShiftVar e d s)).
Qed.

(** What the shortage table shows for a slot is the solved value of its
    shortage variable. *)
Lemma shortage_of_value d s :
  (d, s) ∈ slots →
  (shortage_of (shortage_frame shortage_records) d s == v (ShortageVar d s))%Q.
Proof.
  intros Hin. unfold shortage_of.
  destruct (cell _ _ _) as [q|] eqn:Hc; simpl.
  - apply cell_shortage_frame_Some in Hc.
    apply elem_of_shortages_data in Hc as (d' & s' & Hin' & Hl & -> & _).
    by apply slot_label_inj in Hl as [= -> ->].
  - apply cell_shortage_frame_None in Hc.
    destruct (nonzero (v (ShortageVar d s))) eqn:Hnz; [|symmetry; by apply nonzero_false].
    exfalso. apply Hc. apply list_elem_of_fmap.
    exists (slot_label d s, v (ShortageVar d s)). split; [done|].
    apply elem_of_shortages_data. by exists d, s.
Qed.
End extraction.

(** ** The returned tables of a solved call *)

(** The solver contract, as far as a call relies on it: the values returned
    for the problem the call builds are an optimal solution of it. *)
Definition solves_to_optimality (solve : LpProblem → var_id → Q)
    (employees : list string) (desired_shifts : desired_map)
    (required_shifts : required_map) : Prop :=
  ∀ shifts shortages prob,
    build_problem employees desired_shifts required_shifts = Ok (shifts, shortages, prob) →
    optimal prob (solve prob).

(** The weaker contract that the values satisfy the bounds and constraints. *)
Definition solves_feasibly (solve : LpProblem → var_id → Q)
    (employees : list string) (desired_shifts : desired_map)
    (required_shifts : required_map) : Prop :=
  ∀ shifts shortages prob,
    build_problem employees desired_shifts required_shifts = Ok (shifts, shortages, prob) →
    feasible prob (solve prob).

Lemma solves_to_optimality_feasibly solve employees desired_shifts required_shifts :
  solves_to_optimality solve employees desired_shifts required_shifts →
  solves_feasibly solve employees desired_shifts required_shifts.
Proof. intros Hopt shifts shortages prob Hb. by destruct (Hopt _ _ _ Hb). Qed.

(** A solver that meets the contract on a given input. *)
Definition reference_solver (employees : list string) (desired_shifts : desired_map)
    (required_shifts : required_map) : LpProblem → var_id → Q :=
  λ _, canonical employees (wanted_of desired_shifts) (required_of required_shifts).

Lemma reference_solver_optimal employees desired_shifts required_shifts :
  solves_to_optimality (reference_solver employees desired_shifts required_shifts)
    employees desired_shifts required_shifts.
Proof.
  intros shifts shortages prob Hb.
  apply build_problem_Ok_present in Hb as Hp.
  rewrite (build_problem_ok _ _ _ Hp) in Hb. injection Hb as _ _ <-.
  apply canonical_optimal.
Qed.

Section returned.
Variable solve : LpProblem → var_id → Q.
Variable employees : list string.
Variable desired_shifts : desired_map.
Variable required_shifts : required_map.
Variables pivot shortages_df : DataFrame.
Hypothesis Hret :
  generate_shifts solve employees desired_shifts required_shifts = Ok (pivot, shortages_df).

Local Abbreviation wanted := (wanted_of desired_shifts).
Local Abbreviation required := (required_of required_shifts).
Local Abbreviation solved := (solve (model employees wanted required)).

Lemma returned_present : inputs_present employees desired_shifts required_shifts.
Proof. by apply generate_shifts_Ok in Hret as [Hp _]. Qed.

Lemma returned_pivot :
  pivot = pivot_table (shifts_data (fill_shifts employees) solved).
Proof. apply generate_shifts_Ok in Hret as [_ Ht]. by injection Ht. Qed.

Lemma returned_shortages_df :
  shortages_df = shortage_frame (shortages_data fill_shortages solved).
Proof. apply generate_shifts_Ok in Hret as [_ Ht]. by injection Ht. Qed.

Lemma returned_assigned e d s :
  e ∈ employees → (d, s) ∈ slots →
  (assigned pivot e d s == solved (ShiftVar e d s))%Q.
Proof. rewrite returned_pivot. apply assigned_value. Qed.

Lemma returned_shortage d s :
  (d, s) ∈ slots → (shortage_of shortages_df d s == solved (ShortageVar d s))%Q.
Proof. rewrite returned_shortages_df. apply shortage_of_value. Qed.

Lemma returned_feasible :
  solves_feasibly solve employees desired_shifts required_shifts →
  feasible_values employees wanted required solved.
Proof.
  intros Hf. apply feasible_model. eapply Hf. apply build_problem_ok, returned_present.
Qed.

Lemma returned_optimal :
  solves_to_optimality solve employees desired_shifts required_shifts →
  (∀ e d s, e ∈ employees → (d, s) ∈ slots →
     (assigned pivot e d s == canonical employees wanted required (ShiftVar e d s))%Q) ∧
  (∀ d s, (d, s) ∈ slots →
     (shortage_of shortages_df d s ==
      canonical employees wanted required (ShortageVar d s))%Q).
Proof.
  intros Hopt.
  destruct (optimal_values employees wanted required solved) as [Hshift Hshort].
  { eapply Hopt. apply build_problem_ok, returned_present. }
  split.
  - intros e d s He Hin. rewrite returned_assigned by done. by apply Hshift.
  - intros d s Hin. rewrite returned_shortage by done. by apply Hshort.
Qed.
End returned.

(** * The claims *)

(** ** Example inputs *)

Definition every_day (row : gmap string Z) : required_map :=
  list_to_map ((λ d, (d, row)) <$> days).

(** Two employees who both ask for the morning of day 1 only; one person is
    required in every slot. *)
Definition rivals : list string := ["Sato"; "Suzuki"].
Definition rivals_desired : desired_map :=
  {[ "Sato" := {[ (1, "Morning") ]}; "Suzuki" := {[ (1, "Morning") ]} ]}.
Definition one_each : required_map := every_day {[ "Morning" := 1; "Evening" := 1 ]}.

(** One employee with a wish and one without any. *)
Definition idle_desired : desired_map :=
  {[ "Sato" := {[ (1, "Morning") ]}; "Suzuki" := ∅ ]}.

(** ** Coverage (C1) *)

(** What the returned tables account for in a slot: the assignments of all
    listed employees plus the reported shortage. *)
Definition accounted (employees : list string) (pivot shortages_df : DataFrame)
    (d : Z) (s : string) : Q :=
  (sum_over employees (λ e, assigned pivot e d s) + shortage_of shortages_df d s)%Q.

(** C1, as stated, fails: with two employees who both ask for the morning of
    day 1 and one person required, the optimal solution assigns both (each
    granted wish lowers the objective), so the slot accounts for 2, not 1. *)
Lemma coverage_not_exact :
  solves_to_optimality (reference_solver rivals rivals_desired one_each)
    rivals rivals_desired one_each ∧
  ∃ pivot shortages_df,
    generate_shifts (reference_solver rivals rivals_desired one_each)
      rivals rivals_desired one_each = Ok (pivot, shortages_df) ∧
    (1, "Morning") ∈ slots ∧
    required_of one_each 1 "Morning" = 1 ∧
    (accounted rivals pivot shortages_df 1 "Morning" == 2)%Q ∧
    ¬ (accounted rivals pivot shortages_df 1 "Morning" ==
       inject_Z (required_of one_each 1 "Morning"))%Q.
Proof.
  split; [apply reference_solver_optimal|].
  eexists _, _. split; [vm_compute; reflexivity|].
  split; [apply elem_of_slots; split; [by apply elem_of_days|apply shift_types_nonempty]|].
  split; [by vm_compute|]. split; by vm_compute.
Qed.

(** C1, amended: for the returned optimal solution, every slot accounts for
    the larger of the required coverage and the number of listed employees
    who asked for the slot.  So it is never below the required coverage, and
    it equals the required coverage exactly when no more employees asked for
    the slot than are required. *)
Theorem coverage_at_optimum solve employees desired_shifts required_shifts
    pivot shortages_df d s :
  generate_shifts solve employees desired_shifts required_shifts = Ok (pivot, shortages_df) →
  solves_to_optimality solve employees desired_shifts required_shifts →
  (d, s) ∈ slots →
  let required := required_of required_shifts d s in
  let asking := Z.of_nat (headcount employees (wanted_of desired_shifts) d s) in
  (accounted employees pivot shortages_df d s == inject_Z (Z.max required asking))%Q ∧
  (inject_Z required <= accounted employees pivot shortages_df d s)%Q ∧
  (asking ≤ required ↔
   (accounted employees pivot shortages_df d s == inject_Z required)%Q).
Proof.
  intros Hret Hopt Hin required asking.
  destruct (returned_optimal _ _ _ _ _ _ Hret Hopt) as [Hshift Hshort].
  assert (accounted employees pivot shortages_df d s == inject_Z (Z.max required asking))%Q
    as Hacc.
  { unfold accounted.
    rewrite (sum_over_ext employees _
      (λ e, canonical employees (wanted_of desired_shifts)
              (required_of required_shifts) (ShiftVar e d s)))
      by (intros e He; by apply Hshift).
    rewrite (Hshort d s Hin).
    pose proof (staffing_canonical employees (wanted_of desired_shifts)
                  (required_of required_shifts) d s) as Hstaff.
    unfold staffing in Hstaff. rewrite Hstaff. simpl canonical.
    fold required asking. rewrite <- inject_Z_plus. apply inject_Z_injective. lia. }
  split; [done|]. rewrite Hacc. split.
  - rewrite <- Zle_Qle. lia.
  - rewrite inject_Z_injective. lia.
Qed.

Lemma coverage_at_optimum_witness :
  ∃ pivot shortages_df,
    generate_shifts (reference_solver rivals rivals_desired one_each)
      rivals rivals_desired one_each = Ok (pivot, shortages_df) ∧
    (accounted rivals pivot shortages_df 1 "Morning" ==
     inject_Z (Z.max (required_of one_each 1 "Morning")
                 (Z.of_nat (headcount rivals (wanted_of rivals_desired) 1 "Morning"))))%Q.
Proof.
  eexists _, _. split; [vm_compute; reflexivity|].
  apply (coverage_at_optimum (reference_solver rivals rivals_desired one_each)
           rivals rivals_desired one_each _ _ 1 "Morning").
  - vm_compute; reflexivity.
  - apply reference_solver_optimal.
  - apply elem_of_slots. split; [by apply elem_of_days|apply shift_types_nonempty].
Defined.

(** ** Preference locks (C2) *)

(** C2: for a listed employee and a slot outside that employee's desired set,
    the assignment variable exists (it is in [shifts], binary), the problem
    holds the equality constraint fixing it to 0, the solved value is 0, and
    the assignment table shows no assignment: it has no record for the pair
    and reads 0 there. *)
Theorem unwanted_slot_locked solve employees desired_shifts required_shifts
    shifts shortages prob pivot shortages_df e wanted d s :
  build_problem employees desired_shifts required_shifts = Ok (shifts, shortages, prob) →
  generate_shifts solve employees desired_shifts required_shifts = Ok (pivot, shortages_df) →
  feasible prob (solve prob) →
  e ∈ employees → desired_shifts !! e = Some wanted →
  (d, s) ∈ slots → (d, s) ∉ wanted →
  (∃ x, PyDict.get shifts (e, d, s) = Some x ∧ var_ident x = ShiftVar e d s ∧
        cat x = Binary ∧
        mkConstraint (expr_of_var x) LpConstraintEQ 0%Q ∈ constraints prob) ∧
  (solve prob (ShiftVar e d s) == 0)%Q ∧
  (∀ q, (e, slot_label d s, q) ∉ shifts_data shifts (solve prob)) ∧
  (assigned pivot e d s == 0)%Q.
Proof.
  intros Hb Hret Hfeas He Hdes Hin Hw.
  apply build_problem_Ok_present in Hb as Hp.
  rewrite (build_problem_ok _ _ _ Hp) in Hb. injection Hb as <- <- <-.
  assert ((d, s) ∉ wanted_of desired_shifts e) as Hw'.
  { unfold wanted_of. by rewrite Hdes. }
  apply feasible_model in Hfeas.
  pose proof (locked _ _ _ _ Hfeas e d s He Hin Hw') as Hzero.
  split; [|split; [exact Hzero|split]].
  - exists (shift_variable e d s).
    split; [|split; [reflexivity|split; [reflexivity|]]].
    + pose proof (get_fill_shifts employees e d s) as Hg.
      rewrite decide_True in Hg by (split; assumption). exact Hg.
    + apply elem_of_constraints_model. right. exists e, d, s.
      split; [assumption|]. split; [assumption|]. split; [assumption|reflexivity].
  - intros q (d' & s' & _ & Hin' & Hl & -> & Hnz)%elem_of_shifts_data.
    apply slot_label_inj in Hl as [= <- <-]; [|assumption..].
    apply nonzero_true in Hnz. apply Hnz. exact Hzero.
  - rewrite (returned_assigned _ _ _ _ _ _ Hret e d s He Hin). exact Hzero.
Qed.

Lemma unwanted_slot_locked_witness :
  ∃ shifts shortages prob pivot shortages_df,
    build_problem rivals rivals_desired one_each = Ok (shifts, shortages, prob) ∧
    generate_shifts (reference_solver rivals rivals_desired one_each)
      rivals rivals_desired one_each = Ok (pivot, shortages_df) ∧
    (reference_solver rivals rivals_desired one_each prob (ShiftVar "Sato" 2 "Evening") == 0)%Q ∧
    (assigned pivot "Sato" 2 "Evening" == 0)%Q.
Proof.
  destruct (build_problem rivals rivals_desired one_each)
    as [[[shifts shortages] prob]|] eqn:Hb; [|vm_compute in Hb; discriminate Hb].
  assert (∃ pivot shortages_df,
            generate_shifts (reference_solver rivals rivals_desired one_each)
              rivals rivals_desired one_each = Ok (pivot, shortages_df))
    as (pivot & shortages_df & Hret) by (eexists _, _; vm_compute; reflexivity).
  exists shifts, shortages, prob, pivot, shortages_df.
  split; [reflexivity|]. split; [exact Hret|].
  assert ("Sato" ∈ rivals) as He by left.
  assert ((2, "Evening") ∈ slots) as Hin.
  { apply elem_of_slots. split; [apply elem_of_days; lia|].
    apply elem_of_shift_types. right. reflexivity. }
  destruct (unwanted_slot_locked (reference_solver rivals rivals_desired one_each)
              rivals rivals_desired one_each shifts shortages prob pivot shortages_df
              "Sato" {[ (1, "Morning") ]} 2 "Evening" Hb Hret)
    as (_ & Hzero & _ & Hshown).
  - apply (reference_solver_optimal rivals rivals_desired one_each _ _ _ Hb).
  - exact He.
  - vm_compute. reflexivity.
  - exact Hin.
  - intros Hbad%elem_of_singleton. discriminate Hbad.
  - split; [exact Hzero|exact Hshown].
Defined.

(** ** The objective (C3) *)

Lemma sum_over_filter {A} (P : A → Prop) `{∀ x, Decision (P x)} (xs : list A) (f : A → Q) :
  (sum_over (filter P xs) f == sum_over xs (λ x, if decide (P x) then f x else 0))%Q.
Proof.
  induction xs as [|x xs IH]; [reflexivity|].
  rewrite filter_cons, (sum_over_cons x xs). case_decide.
  - rewrite sum_over_cons, IH. reflexivity.
  - rewrite IH. lra.
Qed.

Lemma sum_over_slots (f : Z * string → Q) :
  (sum_over slots f == sum_over days (λ d, sum_over shift_types (λ s, f (d, s))))%Q.
Proof.
  unfold slots, sum_over at 1. rewrite sum_over_bind. apply sum_over_ext; intros d _.
  rewrite sum_over_bind. apply sum_over_ext; intros s _. simpl. lra.
Qed.

(** The penalty part of the objective: the shortage variables of all slots. *)
Definition shortage_sum (v : var_id → Q) : Q :=
  sum_over slots (λ sl, v (ShortageVar sl.1 sl.2)).

(** The reward part: for each listed employee, the assignment variables of
    the slots in that employee's desired set. *)
Definition granted_sum (employees : list string) (desired_shifts : desired_map)
    (v : var_id → Q) : Q :=
  sum_over employees (λ e,
    sum_over (filter (λ sl, sl ∈ wanted_of desired_shifts e) slots)
             (λ sl, v (ShiftVar e sl.1 sl.2))).

Lemma shortage_sum_total v : (shortage_sum v == total_shortage v)%Q.
Proof. unfold shortage_sum. by rewrite sum_over_slots. Qed.

Lemma granted_sum_total employees desired_shifts v :
  (granted_sum employees desired_shifts v ==
   total_granted employees (wanted_of desired_shifts) v)%Q.
Proof.
  unfold granted_sum, total_granted. apply sum_over_ext; intros e _.
  rewrite sum_over_filter, sum_over_slots. reflexivity.
Qed.

(** C3: the problem minimises; its objective has constant 0, one term of
    coefficient 1 per slot on that slot's shortage variable and one term of
    coefficient -1 per listed employee and desired slot on that assignment
    variable, and nothing else; so it evaluates to the sum of the 60
    shortage variables minus the sum of the desired assignment variables. *)
Theorem objective_is_shortage_minus_granted employees desired_shifts required_shifts
    shifts shortages prob :
  build_problem employees desired_shifts required_shifts = Ok (shifts, shortages, prob) →
  prob_sense prob = LpMinimize ∧
  constant (objective prob) = 0%Q ∧
  length slots = 60%nat ∧
  (∀ x c, (x, c) ∈ terms (objective prob) →
     (c = 1%Q ∧ ∃ d s, (d, s) ∈ slots ∧ x = shortage_variable d s) ∨
     (c = (- 1)%Q ∧ ∃ e d s wanted,
        e ∈ employees ∧ desired_shifts !! e = Some wanted ∧
        (d, s) ∈ slots ∧ (d, s) ∈ wanted ∧ x = shift_variable e d s)) ∧
  (∀ d s, (d, s) ∈ slots → (shortage_variable d s, 1%Q) ∈ terms (objective prob)) ∧
  (∀ e d s wanted,
     e ∈ employees → desired_shifts !! e = Some wanted → (d, s) ∈ slots → (d, s) ∈ wanted →
     (shift_variable e d s, (- 1)%Q) ∈ terms (objective prob)) ∧
  (∀ v, (eval (objective prob) v ==
         shortage_sum v - granted_sum employees desired_shifts v)%Q).
Proof.
  intros Hb. apply build_problem_Ok_present in Hb as Hp.
  rewrite (build_problem_ok _ _ _ Hp) in Hb. injection Hb as <- <- <-.
  assert (∀ e d s, e ∈ employees →
            ((d, s) ∈ wanted_of desired_shifts e ↔
             ∃ wanted, desired_shifts !! e = Some wanted ∧ (d, s) ∈ wanted)) as Hwanted.
  { intros e d s He. destruct Hp as [Hdes _]. destruct (Hdes e He) as [w Hw].
    unfold wanted_of. rewrite Hw. simpl. naive_solver. }
  assert (terms (objective (model employees (wanted_of desired_shifts)
                              (required_of required_shifts))) =
          ((λ x, (x, 1%Q)) <$> penalised_vars) ++
          ((λ x, (x, (- 1)%Q)) <$> granted_vars employees (wanted_of desired_shifts)))
    as Hterms.
  { unfold model, expr_sub, expr_add, expr_neg, lpSum. cbn [objective terms].
    f_equal. by rewrite map_map. }
  split; [done|]. split; [done|]. split; [done|]. split; [|split; [|split]].
  - intros x c. rewrite Hterms.
    intros [(y & [= -> ->] & Hy)%list_elem_of_fmap|(y & [= -> ->] & Hy)%list_elem_of_fmap]%elem_of_app.
    + left. split; [done|]. by apply elem_of_penalised_vars.
    + right. split; [done|].
      apply elem_of_granted_vars in Hy as (e & d & s & He & Hin & Hw & ->).
      apply (Hwanted e d s He) in Hw as (w & Hdes & Hw). by exists e, d, s, w.
  - intros d s Hin. rewrite Hterms. apply elem_of_app. left.
    apply list_elem_of_fmap. exists (shortage_variable d s). split; [done|].
    apply elem_of_penalised_vars. by exists d, s.
  - intros e d s w He Hdes Hin Hw. rewrite Hterms. apply elem_of_app. right.
    apply list_elem_of_fmap. exists (shift_variable e d s). split; [done|].
    apply elem_of_granted_vars. exists e, d, s. repeat split; try done.
    apply Hwanted; [done|]. by exists w.
  - intros v. rewrite eval_objective, shortage_sum_total, granted_sum_total. reflexivity.
Qed.

Lemma objective_is_shortage_minus_granted_witness :
  ∃ shifts shortages prob,
    build_problem rivals rivals_desired one_each = Ok (shifts, shortages, prob) ∧
    prob_sense prob = LpMinimize ∧
    ∀ v, (eval (objective prob) v == shortage_sum v - granted_sum rivals rivals_desired v)%Q.
Proof.
  destruct (build_problem rivals rivals_desired one_each)
    as [[[shifts shortages] prob]|] eqn:Hb; [|by vm_compute in Hb].
  exists shifts, shortages, prob. split; [done|].
  destruct (objective_is_shortage_minus_granted rivals rivals_desired one_each
              shifts shortages prob Hb) as (Hsense & _ & _ & _ & _ & _ & Heval).
  by split.
Defined.

(** ** Binary assignments (C4) *)

Lemma pivot_index_employee employees v row :
  row ∈ index (pivot_table (shifts_data (fill_shifts employees) v)) → row ∈ employees.
Proof.
  unfold pivot_table. cbn [index]. rewrite elem_of_sorted_unique.
  intros ([[e l] q] & -> & Hr)%list_elem_of_fmap.
  by apply elem_of_shifts_data in Hr as (d & s & He & _).
Qed.

Lemma pivot_column_slot employees v col :
  col ∈ columns (pivot_table (shifts_data (fill_shifts employees) v)) →
  ∃ d s, (d, s) ∈ slots ∧ col = slot_label d s.
Proof.
  unfold pivot_table. cbn [columns]. rewrite elem_of_sorted_unique.
  intros ([[e l] q] & -> & Hr)%list_elem_of_fmap.
  apply elem_of_shifts_data in Hr as (d & s & _ & Hin & -> & _). by exists d, s.
Qed.

Lemma elem_of_pivot_values records row q :
  row ∈ values (pivot_table records) → q ∈ row →
  ∃ r c, r ∈ index (pivot_table records) ∧ c ∈ columns (pivot_table records) ∧
         q = pivot_cell records 0%Q r c.
Proof.
  unfold pivot_table. cbn [index columns values].
  intros (r & -> & Hr)%list_elem_of_fmap (c & -> & Hc)%list_elem_of_fmap. by exists r, c.
Qed.

(** C4: every assignment variable is declared binary and only the shortage
    variables are continuous (bounded below by 0); every value in the
    returned assignment table is 0 or 1. *)
Theorem assignment_table_binary solve employees desired_shifts required_shifts
    shifts shortages prob pivot shortages_df :
  build_problem employees desired_shifts required_shifts = Ok (shifts, shortages, prob) →
  generate_shifts solve employees desired_shifts required_shifts = Ok (pivot, shortages_df) →
  feasible prob (solve prob) →
  (∀ k x, (k, x) ∈ PyDict.items shifts → cat x = Binary) ∧
  (∀ k x, (k, x) ∈ PyDict.items shortages →
     cat x = Continuous ∧ lowBound x = Some 0%Q ∧ upBound x = None) ∧
  (∀ x, x ∈ variables prob → cat x = Continuous → ∃ d s, var_ident x = ShortageVar d s) ∧
  (∀ row q, row ∈ values pivot → q ∈ row → (q == 0 ∨ q == 1)%Q) ∧
  (∀ e l q, cell pivot e l = Some q → (q == 0 ∨ q == 1)%Q).
Proof.
  intros Hb Hret Hfeas.
  apply build_problem_Ok_present in Hb as Hp.
  rewrite (build_problem_ok _ _ _ Hp) in Hb. injection Hb as <- <- <-.
  apply feasible_model in Hfeas.
  rewrite (returned_pivot _ _ _ _ _ _ Hret). clear Hret.
  set (v := solve _) in *.
  assert (∀ r c, r ∈ index (pivot_table (shifts_data (fill_shifts employees) v)) →
                 c ∈ columns (pivot_table (shifts_data (fill_shifts employees) v)) →
                 (pivot_cell (shifts_data (fill_shifts employees) v) 0 r c == 0 ∨
                  pivot_cell (shifts_data (fill_shifts employees) v) 0 r c == 1)%Q) as Hcell.
  { intros r c Hr%pivot_index_employee (d & s & Hin & ->)%pivot_column_slot.
    rewrite (pivot_cell_value employees v r d s Hr Hin).
    by apply (shift_binary _ _ _ _ Hfeas). }
  split; [|split; [|split; [|split]]].
  - intros [[e d] s] x (_ & _ & ->)%elem_of_items_shifts. done.
  - intros [d s] x (_ & ->)%elem_of_items_shortages. done.
  - intros x [(d & s & _ & ->)|(e & d & s & _ & _ & ->)]%elem_of_variables; [by eauto|done].
  - intros row q Hrow Hq.
    destruct (elem_of_pivot_values _ _ _ Hrow Hq) as (r & c & Hr & Hc & ->). by apply Hcell.
  - intros e l q. rewrite cell_pivot_table. case_decide as Hrc; [|done].
    intros [= <-]. destruct Hrc as [Hr Hc]. apply Hcell.
    + unfold pivot_table. cbn [index]. by apply elem_of_sorted_unique.
    + unfold pivot_table. cbn [columns]. by apply elem_of_sorted_unique.
Qed.

Lemma assignment_table_binary_witness :
  ∃ pivot shortages_df,
    generate_shifts (reference_solver rivals rivals_desired one_each)
      rivals rivals_desired one_each = Ok (pivot, shortages_df) ∧
    ∀ row q, row ∈ values pivot → q ∈ row → (q == 0 ∨ q == 1)%Q.
Proof.
  destruct (build_problem rivals rivals_desired one_each)
    as [[[shifts shortages] prob]|] eqn:Hb; [|vm_compute in Hb; discriminate Hb].
  assert (∃ pivot shortages_df,
            generate_shifts (reference_solver rivals rivals_desired one_each)
              rivals rivals_desired one_each = Ok (pivot, shortages_df))
    as (pivot & shortages_df & Hret) by (eexists _, _; vm_compute; reflexivity).
  exists pivot, shortages_df. split; [exact Hret|].
  destruct (assignment_table_binary (reference_solver rivals rivals_desired one_each)
              rivals rivals_desired one_each shifts shortages prob pivot shortages_df
              Hb Hret)
    as (_ & _ & _ & Hvalues & _); [|exact Hvalues].
  apply (reference_solver_optimal rivals rivals_desired one_each _ _ _ Hb).
Defined.

(** ** Rows of the assignment table (C5) *)

(** C5, as stated, fails: an employee without any non-zero assignment has no
    row.  Suzuki is listed, asks for nothing, and is missing from the table. *)
Lemma idle_employee_has_no_row :
  solves_to_optimality (reference_solver rivals idle_desired one_each)
    rivals idle_desired one_each ∧
  ∃ pivot shortages_df,
    generate_shifts (reference_solver rivals idle_desired one_each)
      rivals idle_desired one_each = Ok (pivot, shortages_df) ∧
    "Suzuki" ∈ rivals ∧ index pivot = ["Sato"] ∧ ("Suzuki" ∉ index pivot) ∧
    length (index pivot) ≠ length rivals.
Proof.
  split; [apply reference_solver_optimal|].
  eexists _, _. split; [vm_compute; reflexivity|]. cbn [index].
  split; [right; left|]. split; [reflexivity|].
  split; [|discriminate].
  intros Hin%list_elem_of_singleton. discriminate Hin.
Qed.

#[global] Instance string_le_total : Total string_le.
Proof. intros a b. apply String.leb_total. Qed.

(** C5, amended: the assignment table has one row per distinct listed
    employee with at least one non-zero assignment, in sorted order (an
    employee with none has no row), one cell per row and column, and the cell
    is 0 for every row and column that have no non-zero assignment. *)
Theorem assignment_table_rows solve employees desired_shifts required_shifts
    shifts shortages prob pivot shortages_df :
  build_problem employees desired_shifts required_shifts = Ok (shifts, shortages, prob) →
  generate_shifts solve employees desired_shifts required_shifts = Ok (pivot, shortages_df) →
  NoDup (index pivot) ∧ Sorted string_le (index pivot) ∧
  (∀ e, e ∈ index pivot ↔
        e ∈ employees ∧ ∃ d s, (d, s) ∈ slots ∧ ¬ (solve prob (ShiftVar e d s) == 0)%Q) ∧
  length (values pivot) = length (index pivot) ∧
  (∀ row, row ∈ values pivot → length row = length (columns pivot)) ∧
  (∀ e l, e ∈ index pivot → l ∈ columns pivot →
     (∀ q, (e, l, q) ∉ shifts_data shifts (solve prob)) → cell pivot e l = Some 0%Q).
Proof.
  intros Hb Hret.
  apply build_problem_Ok_present in Hb as Hp.
  rewrite (build_problem_ok _ _ _ Hp) in Hb. injection Hb as <- <- <-.
  rewrite (returned_pivot _ _ _ _ _ _ Hret). clear Hret.
  set (v := solve _) in *. set (records := shifts_data (fill_shifts employees) v).
  split; [apply NoDup_sorted_unique|]. split; [apply Sorted_merge_sort, _|].
  split; [|split; [|split]].
  - intros e. unfold pivot_table. cbn [index]. rewrite elem_of_sorted_unique. split.
    + intros ([[e' l] q] & -> & Hr)%list_elem_of_fmap.
      apply elem_of_shifts_data in Hr as (d & s & He & Hin & _ & -> & Hnz).
      split; [done|]. exists d, s. split; [done|]. by apply nonzero_true.
    + intros (He & d & s & Hin & Hnz). apply list_elem_of_fmap.
      exists (e, slot_label d s, v (ShiftVar e d s)). split; [done|].
      apply elem_of_shifts_data. exists d, s. by rewrite nonzero_true.
  - unfold pivot_table. cbn [index values]. by rewrite length_map.
  - unfold pivot_table. cbn [columns values].
    intros row (r & -> & _)%list_elem_of_fmap. by rewrite length_map.
  - intros e l He Hl Hnone. rewrite cell_pivot_table.
    unfold pivot_table in He, Hl. cbn [index columns] in He, Hl.
    rewrite elem_of_sorted_unique in He, Hl. rewrite decide_True by done.
    unfold pivot_cell. rewrite filter_key_none; [done|].
    intros [[e' l'] q] Hr [He' Hl']. simpl in He', Hl'. subst. by apply (Hnone q).
Qed.

Lemma assignment_table_rows_witness :
  ∃ shifts shortages prob pivot shortages_df,
    build_problem rivals idle_desired one_each = Ok (shifts, shortages, prob) ∧
    generate_shifts (reference_solver rivals idle_desired one_each)
      rivals idle_desired one_each = Ok (pivot, shortages_df) ∧
    ∀ e, e ∈ index pivot ↔
         e ∈ rivals ∧
         ∃ d s, (d, s) ∈ slots ∧
           ¬ (reference_solver rivals idle_desired one_each prob (ShiftVar e d s) == 0)%Q.
Proof.
  destruct (build_problem rivals idle_desired one_each)
    as [[[shifts shortages] prob]|] eqn:Hb; [|vm_compute in Hb; discriminate Hb].
  assert (∃ pivot shortages_df,
            generate_shifts (reference_solver rivals idle_desired one_each)
              rivals idle_desired one_each = Ok (pivot, shortages_df))
    as (pivot & shortages_df & Hret) by (eexists _, _; vm_compute; reflexivity).
  exists shifts, shortages, prob, pivot, shortages_df.
  split; [reflexivity|]. split; [exact Hret|].
  destruct (assignment_table_rows (reference_solver rivals idle_desired one_each)
              rivals idle_desired one_each shifts shortages prob pivot shortages_df
              Hb Hret)
    as (_ & _ & Hrows & _).
  exact Hrows.
Defined.

(** ** Rows of the two tables *)

Lemma elem_of_pivot_index employees v e :
  e ∈ index (pivot_table (shifts_data (fill_shifts employees) v)) ↔
  e ∈ employees ∧ ∃ d s, (d, s) ∈ slots ∧ ¬ (v (ShiftVar e d s) == 0)%Q.
Proof.
  unfold pivot_table. cbn [index]. rewrite elem_of_sorted_unique. split.
  - intros ([[e' l] q] & -> & Hr)%list_elem_of_fmap.
    apply elem_of_shifts_data in Hr as (d & s & He & Hin & _ & -> & Hnz).
    split; [done|]. exists d, s. split; [done|]. by apply nonzero_true.
  - intros (He & d & s & Hin & Hnz). apply list_elem_of_fmap.
    exists (e, slot_label d s, v (ShiftVar e d s)). split; [done|].
    apply elem_of_shifts_data. exists d, s. by rewrite nonzero_true.
Qed.

Lemma elem_of_shortage_index v l :
  l ∈ index (shortage_frame (shortages_data fill_shortages v)) ↔
  ∃ d s, (d, s) ∈ slots ∧ l = slot_label d s ∧ ¬ (v (ShortageVar d s) == 0)%Q.
Proof.
  unfold shortage_frame. cbn [index]. split.
  - intros ([l' q] & -> & Hr)%list_elem_of_fmap.
    apply elem_of_shortages_data in Hr as (d & s & Hin & -> & -> & Hnz).
    exists d, s. by rewrite <- nonzero_true.
  - intros (d & s & Hin & -> & Hnz). apply list_elem_of_fmap.
    exists (slot_label d s, v (ShortageVar d s)). split; [done|].
    apply elem_of_shortages_data. exists d, s. by rewrite nonzero_true.
Qed.

Lemma shortages_data_nil v :
  (∀ d s, (d, s) ∈ slots → (v (ShortageVar d s) == 0)%Q) →
  shortages_data fill_shortages v = [].
Proof.
  intros Hzero. destruct (shortages_data fill_shortages v) as [|[l q] rs] eqn:Hrs; [done|].
  assert ((l, q) ∈ shortages_data fill_shortages v) as Hr by (rewrite Hrs; left).
  apply elem_of_shortages_data in Hr as (d & s & Hin & _ & -> & Hnz).
  apply nonzero_true in Hnz. by destruct (Hnz (Hzero d s Hin)).
Qed.

Lemma NoDup_days : NoDup days.
Proof. apply (bool_decide_unpack _). vm_compute. exact I. Qed.

Lemma every_day_lookup row d : d ∈ days → every_day row !! d = Some row.
Proof.
  intros Hd. unfold every_day. apply elem_of_list_to_map_1.
  - assert (∀ l : list Z, ((λ d0, (d0, row)) <$> l).*1 = l) as Hfst
      by (induction l; csimpl; congruence).
    rewrite Hfst. apply NoDup_days.
  - apply list_elem_of_fmap. exists d. split; [reflexivity|exact Hd].
Qed.

(** ** No demand, no shortage (C6) *)

Definition none_required : required_map := every_day {[ "Morning" := 0; "Evening" := 0 ]}.

(** C6: when the required coverage of all 60 slots is 0, the optimal shortage
    of every slot is 0 and the returned shortage table has no rows. *)
Theorem no_demand_no_shortage solve employees desired_shifts required_shifts
    shifts shortages prob pivot shortages_df :
  build_problem employees desired_shifts required_shifts = Ok (shifts, shortages, prob) →
  generate_shifts solve employees desired_shifts required_shifts = Ok (pivot, shortages_df) →
  optimal prob (solve prob) →
  (∀ d s, (d, s) ∈ slots →
     ∃ row, required_shifts !! d = Some row ∧ row !! s = Some 0) →
  (∀ d s, (d, s) ∈ slots → (solve prob (ShortageVar d s) == 0)%Q) ∧
  (∀ d s, (d, s) ∈ slots → (shortage_of shortages_df d s == 0)%Q) ∧
  index shortages_df = [] ∧ values shortages_df = [].
Proof.
  intros Hb Hret Hopt Hreq.
  apply build_problem_Ok_present in Hb as Hp.
  rewrite (build_problem_ok _ _ _ Hp) in Hb. injection Hb as <- <- <-.
  pose proof (returned_shortages_df _ _ _ _ _ _ Hret) as Hdf.
  pose proof (returned_shortage _ _ _ _ _ _ Hret) as Hshown. clear Hret.
  destruct (optimal_values _ _ _ _ Hopt) as [_ Hshort].
  assert (∀ d s, (d, s) ∈ slots →
            (solve (model employees (wanted_of desired_shifts) (required_of required_shifts))
               (ShortageVar d s) == 0)%Q) as Hzero.
  { intros d s Hin. rewrite (Hshort d s Hin). simpl.
    destruct (Hreq d s Hin) as (row & Hrow & Hr).
    unfold required_of. rewrite Hrow. simpl. rewrite Hr. simpl.
    change 0%Q with (inject_Z 0). apply inject_Z_injective. lia. }
  split; [exact Hzero|]. split.
  - intros d s Hin. rewrite (Hshown d s Hin). apply Hzero, Hin.
  - rewrite Hdf, (shortages_data_nil _ Hzero). split; reflexivity.
Qed.

Lemma no_demand_no_shortage_witness :
  ∃ pivot shortages_df,
    generate_shifts (reference_solver rivals rivals_desired none_required)
      rivals rivals_desired none_required = Ok (pivot, shortages_df) ∧
    index shortages_df = [] ∧ values shortages_df = [].
Proof.
  destruct (build_problem rivals rivals_desired none_required)
    as [[[shifts shortages] prob]|] eqn:Hb; [|vm_compute in Hb; discriminate Hb].
  assert (∃ pivot shortages_df,
            generate_shifts (reference_solver rivals rivals_desired none_required)
              rivals rivals_desired none_required = Ok (pivot, shortages_df))
    as (pivot & shortages_df & Hret) by (eexists _, _; vm_compute; reflexivity).
  exists pivot, shortages_df. split; [exact Hret|].
  destruct (no_demand_no_shortage (reference_solver rivals rivals_desired none_required)
              rivals rivals_desired none_required shifts shortages prob pivot shortages_df
              Hb Hret)
    as (_ & _ & Hindex & Hvalues).
  - apply (reference_solver_optimal rivals rivals_desired none_required _ _ _ Hb).
  - intros d s [Hd Hs]%elem_of_slots. exists {[ "Morning" := 0; "Evening" := 0 ]}.
    split; [apply every_day_lookup, Hd|].
    apply elem_of_shift_types in Hs as [Hs|Hs]; subst s; vm_compute; reflexivity.
  - split; [exact Hindex|exact Hvalues].
Defined.

(** ** Scenario 1 (C7) *)

(** All 30 morning slots. *)
Definition mornings : gset (Z * string) := list_to_set ((λ d, (d, "Morning")) <$> days).

Definition morning_person (e : string) : desired_map := {[ e := mornings ]}.

Lemma elem_of_mornings d s : (d, s) ∈ mornings ↔ d ∈ days ∧ s = "Morning".
Proof.
  unfold mornings. rewrite elem_of_list_to_set, list_elem_of_fmap. naive_solver.
Qed.

Lemma one_each_required d s : (d, s) ∈ slots → required_of one_each d s = 1.
Proof.
  intros [Hd Hs]%elem_of_slots. unfold required_of, one_each.
  rewrite (every_day_lookup _ d Hd). simpl.
  apply elem_of_shift_types in Hs as [Hs|Hs]; subst s; vm_compute; reflexivity.
Qed.

Lemma morning_person_present e : inputs_present [e] (morning_person e) one_each.
Proof.
  split.
  - intros e' He'%list_elem_of_singleton. subst e'. unfold morning_person.
    rewrite lookup_singleton_eq. eexists. reflexivity.
  - intros d s [Hd Hs]%elem_of_slots. exists {[ "Morning" := 1; "Evening" := 1 ]}.
    unfold one_each. rewrite (every_day_lookup _ d Hd).
    apply elem_of_shift_types in Hs as [Hs|Hs]; subst s; eexists;
      (split; [reflexivity|vm_compute; reflexivity]).
Qed.

Lemma morning_person_headcount e d s :
  headcount [e] (wanted_of (morning_person e)) d s =
    if decide ((d, s) ∈ mornings) then 1%nat else 0%nat.
Proof.
  unfold headcount, wanted_of, morning_person. rewrite filter_cons, filter_nil.
  rewrite lookup_singleton_eq. simpl. case_decide; reflexivity.
Qed.

Lemma morning_person_canonical e d s :
  (d, s) ∈ slots →
  canonical [e] (wanted_of (morning_person e)) (required_of one_each) (ShiftVar e d s) =
    (if decide (s = "Morning") then 1%Q else 0%Q) ∧
  canonical [e] (wanted_of (morning_person e)) (required_of one_each) (ShortageVar d s) =
    (if decide (s = "Morning") then 0%Q else 1%Q).
Proof.
  intros Hin. apply elem_of_slots in Hin as Hds. destruct Hds as [Hd _].
  assert ((d, s) ∈ mornings ↔ s = "Morning") as Hm.
  { rewrite elem_of_mornings. tauto. }
  split.
  - simpl. unfold wanted_of, morning_person. rewrite lookup_singleton_eq. simpl.
    destruct (decide (s = "Morning")) as [Hs|Hs].
    + rewrite decide_True by (apply Hm, Hs). reflexivity.
    + rewrite decide_False by (rewrite Hm; exact Hs). reflexivity.
  - simpl. rewrite morning_person_headcount, (one_each_required d s Hin).
    destruct (decide (s = "Morning")) as [Hs|Hs].
    + rewrite decide_True by (apply Hm, Hs). reflexivity.
    + rewrite decide_False by (rewrite Hm; exact Hs). reflexivity.
Qed.

(** C7: one employee who asks for all 30 mornings, one person required in
    every slot.  The call returns; the employee is assigned every morning and
    no evening; every evening reports shortage 1 and every morning none.  The
    assignment table has the one row, the shortage table exactly the 30
    evening rows. *)
Theorem scenario_one solve e :
  solves_to_optimality solve [e] (morning_person e) one_each →
  ∃ pivot shortages_df,
    generate_shifts solve [e] (morning_person e) one_each = Ok (pivot, shortages_df) ∧
    (∀ d, 1 ≤ d ≤ 30 →
       (assigned pivot e d "Morning" == 1)%Q ∧
       (assigned pivot e d "Evening" == 0)%Q ∧
       (shortage_of shortages_df d "Evening" == 1)%Q ∧
       (shortage_of shortages_df d "Morning" == 0)%Q) ∧
    (∀ r, r ∈ index pivot ↔ r = e) ∧
    (∀ l, l ∈ index shortages_df ↔ ∃ d, 1 ≤ d ≤ 30 ∧ l = slot_label d "Evening").
Proof.
  intros Hopt.
  pose proof (morning_person_present e) as Hp.
  pose proof (Hopt _ _ _ (build_problem_ok _ _ _ Hp)) as Hoptimal.
  apply optimal_values in Hoptimal as [Hv Hs].
  set (v := solve (model [e] (wanted_of (morning_person e)) (required_of one_each))) in *.
  exists (pivot_table (shifts_data (fill_shifts [e]) v)),
         (shortage_frame (shortages_data fill_shortages v)).
  split; [apply generate_shifts_Ok; split; [exact Hp|reflexivity]|].
  clear Hopt Hp.
  assert (e ∈ [e]) as He by left.
  assert (∀ d, 1 ≤ d ≤ 30 → (d, "Morning") ∈ slots ∧ (d, "Evening") ∈ slots) as Hslots.
  { intros d Hd%elem_of_days.
    split; apply elem_of_slots; (split; [exact Hd|]); apply elem_of_shift_types;
      [left|right]; reflexivity. }
  assert (∀ d s, (d, s) ∈ slots →
            (v (ShiftVar e d s) == if decide (s = "Morning") then 1 else 0)%Q ∧
            (v (ShortageVar d s) == if decide (s = "Morning") then 0 else 1)%Q) as Hvals.
  { intros d s Hin. destruct (morning_person_canonical e d s Hin) as [Hc1 Hc2].
    rewrite (Hv e d s He Hin), (Hs d s Hin), Hc1, Hc2. split; reflexivity. }
  split; [|split].
  - intros d Hd. destruct (Hslots d Hd) as [Hm Hev].
    destruct (Hvals d "Morning" Hm) as [Hvm Hsm].
    destruct (Hvals d "Evening" Hev) as [Hve Hse].
    rewrite (assigned_value [e] v e d "Morning" He Hm),
      (assigned_value [e] v e d "Evening" He Hev),
      (shortage_of_value v d "Evening" Hev), (shortage_of_value v d "Morning" Hm).
    split; [exact Hvm|]. split; [exact Hve|]. split; [exact Hse|exact Hsm].
  - intros r. rewrite elem_of_pivot_index, list_elem_of_singleton. split.
    + intros [Hr _]. exact Hr.
    + intros Hr. subst r. split; [reflexivity|]. exists 1, "Morning".
      assert (1 ≤ 1 ≤ 30) as H1 by lia. destruct (Hslots 1 H1) as [Hm _].
      split; [exact Hm|]. destruct (Hvals 1 "Morning" Hm) as [Hvm _].
      rewrite Hvm. discriminate.
  - intros l. rewrite elem_of_shortage_index. split.
    + intros (d & s & Hin & Hl & Hnz). apply elem_of_slots in Hin as Hds.
      destruct Hds as [Hd%elem_of_days Hst%elem_of_shift_types].
      destruct (Hvals d s Hin) as [_ Hsv].
      destruct Hst as [Hst|Hst]; subst s.
      * exfalso. apply Hnz. rewrite Hsv. reflexivity.
      * exists d. split; [exact Hd|exact Hl].
    + intros (d & Hd & Hl). destruct (Hslots d Hd) as [_ Hev].
      exists d, "Evening". split; [exact Hev|]. split; [exact Hl|].
      destruct (Hvals d "Evening" Hev) as [_ Hsv]. rewrite Hsv. discriminate.
Qed.

Lemma scenario_one_witness :
  ∃ pivot shortages_df,
    generate_shifts (reference_solver ["Sato"] (morning_person "Sato") one_each)
      ["Sato"] (morning_person "Sato") one_each = Ok (pivot, shortages_df) ∧
    (∀ d, 1 ≤ d ≤ 30 →
       (assigned pivot "Sato" d "Morning" == 1)%Q ∧
       (assigned pivot "Sato" d "Evening" == 0)%Q ∧
       (shortage_of shortages_df d "Evening" == 1)%Q ∧
       (shortage_of shortages_df d "Morning" == 0)%Q).
Proof.
  destruct (scenario_one (reference_solver ["Sato"] (morning_person "Sato") one_each) "Sato")
    as (pivot & shortages_df & Hret & Hvalues & _).
  - apply reference_solver_optimal.
  - exists pivot, shortages_df. split; [exact Hret|exact Hvalues].
Defined.

Example scenario_one_tables :
  generate_shifts (reference_solver ["Sato"] (morning_person "Sato") one_each)
    ["Sato"] (morning_person "Sato") one_each =
  Ok (mkDataFrame ["Sato"]
        (merge_sort string_le ((λ d, slot_label d "Morning") <$> days))
        [replicate 30 1%Q],
      mkDataFrame ((λ d, slot_label d "Evening") <$> days) ["Shortage"]
        (replicate 30 [1%Q])).
Proof. vm_compute. reflexivity. Qed.

(** ** Missing keys (C8) *)

(** C8: when [desired_shifts] has no entry for a listed employee, or
    [required_shifts] has no entry for a day in 1..30, or the entry of such a
    day has none for Morning or for Evening, the call raises [KeyError] and
    returns no tables. *)
Theorem missing_key_raises solve employees desired_shifts required_shifts :
  (∃ e, e ∈ employees ∧ desired_shifts !! e = None) ∨
  (∃ d, 1 ≤ d ≤ 30 ∧ required_shifts !! d = None) ∨
  (∃ d s row, 1 ≤ d ≤ 30 ∧ (s = "Morning" ∨ s = "Evening") ∧
              required_shifts !! d = Some row ∧ row !! s = None) →
  (∃ k, generate_shifts solve employees desired_shifts required_shifts =
        Raise (KeyError k)) ∧
  ∀ tables, generate_shifts solve employees desired_shifts required_shifts ≠ Ok tables.
Proof.
  intros Hmiss.
  assert (raises (generate_shifts solve employees desired_shifts required_shifts)) as Hr.
  { unfold generate_shifts. apply bind_raises_l.
    destruct Hmiss as [(e & He & Hdes)|[(d & Hd & Hday)|(d & s & row & Hd & Hs & Hrow & Hcol)]].
    - by apply (build_problem_raises_desired _ _ _ e).
    - apply (build_problem_raises_required _ _ _ d "Morning"); [|by left].
      apply elem_of_slots. split; [by apply elem_of_days|apply shift_types_nonempty].
    - apply (build_problem_raises_required _ _ _ d s).
      + apply elem_of_slots. split; [by apply elem_of_days|by apply elem_of_shift_types].
      + right. by exists row. }
  split; [done|]. intros tables. by apply raises_not_Ok.
Qed.

Lemma missing_key_raises_witness :
  ∃ k, generate_shifts (reference_solver rivals rivals_desired (delete 7 one_each))
         rivals rivals_desired (delete 7 one_each) = Raise (KeyError k).
Proof.
  apply (missing_key_raises (reference_solver rivals rivals_desired (delete 7 one_each))
           rivals rivals_desired (delete 7 one_each)).
  right. left. exists 7. split; [lia|]. apply lookup_delete_eq.
Defined.

Example missing_employee_key :
  generate_shifts (reference_solver ["Sato"; "Tanaka"] rivals_desired one_each)
    ["Sato"; "Tanaka"] rivals_desired one_each = Raise (KeyError (KAtom (PStr "Tanaka"))).
Proof. vm_compute. reflexivity. Qed.

Example missing_shift_type_key :
  generate_shifts (reference_solver rivals rivals_desired one_each)
    rivals rivals_desired (<[3 := {[ "Morning" := 1 ]}]> one_each) =
  Raise (KeyError (KAtom (PStr "Evening"))).
Proof. vm_compute. reflexivity. Qed.

(** ** Rows of the shortage table (C9) *)

Lemma NoDup_items_shortages : NoDup (PyDict.items fill_shortages).
Proof. apply (NoDup_fmap_1 fst), NoDup_keys_fill_shortages. Qed.

Lemma NoDup_shortage_labels v : NoDup (fst <$> shortages_data fill_shortages v).
Proof.
  unfold shortages_data. rewrite list_fmap_omap.
  apply NoDup_omap; [apply NoDup_items_shortages|].
  intros [[d1 s1] x1] [[d2 s2] x2] l.
  intros (Hin1 & ->)%elem_of_items_shortages (Hin2 & ->)%elem_of_items_shortages.
  simpl. destruct (nonzero _); [|done]. destruct (nonzero _); [|done]. simpl.
  intros [= <-] [= Hl]. by apply slot_label_inj in Hl as [= -> ->].
Qed.

(** C9: the shortage table has a row for a slot exactly when the solved
    shortage of the slot is non-zero; the row is labelled with the slot label
    and holds the solved shortage in its single column; no slot has two rows
    and there are no other rows. *)
Theorem shortage_table_rows solve employees desired_shifts required_shifts
    shifts shortages prob pivot shortages_df :
  build_problem employees desired_shifts required_shifts = Ok (shifts, shortages, prob) →
  generate_shifts solve employees desired_shifts required_shifts = Ok (pivot, shortages_df) →
  columns shortages_df = ["Shortage"] ∧
  NoDup (index shortages_df) ∧
  length (values shortages_df) = length (index shortages_df) ∧
  (∀ l, l ∈ index shortages_df → ∃ d s, (d, s) ∈ slots ∧ l = slot_label d s) ∧
  (∀ d s, (d, s) ∈ slots →
     (slot_label d s ∈ index shortages_df ↔ ¬ (solve prob (ShortageVar d s) == 0)%Q) ∧
     (¬ (solve prob (ShortageVar d s) == 0)%Q →
      cell shortages_df (slot_label d s) "Shortage" = Some (solve prob (ShortageVar d s))) ∧
     ((solve prob (ShortageVar d s) == 0)%Q →
      cell shortages_df (slot_label d s) "Shortage" = None)).
Proof.
  intros Hb Hret.
  apply build_problem_Ok_present in Hb as Hp.
  rewrite (build_problem_ok _ _ _ Hp) in Hb. injection Hb as <- <- <-.
  rewrite (returned_shortages_df _ _ _ _ _ _ Hret). clear Hret.
  set (v := solve _) in *.
  assert (∀ d s, (d, s) ∈ slots →
            slot_label d s ∈ index (shortage_frame (shortages_data fill_shortages v)) ↔
            ¬ (v (ShortageVar d s) == 0)%Q) as Hrow.
  { intros d s Hin. rewrite elem_of_shortage_index. split.
    - intros (d' & s' & Hin' & Hl & Hnz). by apply slot_label_inj in Hl as [= -> ->].
    - intros Hnz. by exists d, s. }
  split; [done|]. split; [apply NoDup_shortage_labels|]. split; [|split].
  - unfold shortage_frame. cbn [index values]. by rewrite !length_map.
  - intros l (d & s & Hin & -> & _)%elem_of_shortage_index. by exists d, s.
  - intros d s Hin. split; [by apply Hrow|]. split.
    + intros Hnz.
      destruct (cell _ _ _) as [q|] eqn:Hc.
      * apply cell_shortage_frame_Some in Hc.
        apply elem_of_shortages_data in Hc as (d' & s' & Hin' & Hl & -> & _).
        by apply slot_label_inj in Hl as [= -> ->].
      * apply cell_shortage_frame_None in Hc. exfalso. apply Hc.
        by apply (Hrow d s Hin).
    + intros Hz. apply cell_shortage_frame_None. intros Hl.
      by apply (Hrow d s Hin) in Hl.
Qed.

Lemma shortage_table_rows_witness :
  ∃ shifts shortages prob pivot shortages_df,
    build_problem rivals rivals_desired one_each = Ok (shifts, shortages, prob) ∧
    generate_shifts (reference_solver rivals rivals_desired one_each)
      rivals rivals_desired one_each = Ok (pivot, shortages_df) ∧
    (slot_label 1 "Evening" ∈ index shortages_df ↔
     ¬ (reference_solver rivals rivals_desired one_each prob (ShortageVar 1 "Evening") == 0)%Q).
Proof.
  destruct (build_problem rivals rivals_desired one_each)
    as [[[shifts shortages] prob]|] eqn:Hb; [|vm_compute in Hb; discriminate Hb].
  assert (∃ pivot shortages_df,
            generate_shifts (reference_solver rivals rivals_desired one_each)
              rivals rivals_desired one_each = Ok (pivot, shortages_df))
    as (pivot & shortages_df & Hret) by (eexists _, _; vm_compute; reflexivity).
  exists shifts, shortages, prob, pivot, shortages_df.
  split; [reflexivity|]. split; [exact Hret|].
  destruct (shortage_table_rows (reference_solver rivals rivals_desired one_each)
              rivals rivals_desired one_each shifts shortages prob pivot shortages_df
              Hb Hret)
    as (_ & _ & _ & _ & Hrows).
  apply Hrows. apply elem_of_slots. split; [apply elem_of_days; lia|].
  apply elem_of_shift_types. right. reflexivity.
Defined.

(** ** Desired entries outside the grid (C10) *)

Lemma bind_ext {A B} (r : result A) (k1 k2 : A → result B) :
  (∀ a, k1 a = k2 a) → bind r k1 = bind r k2.
Proof. intros Hk. destruct r as [a|e]; [apply Hk|reflexivity]. Qed.

Lemma for_in_ext {A B} (xs : list A) (body1 body2 : A → result (list B)) :
  (∀ x, x ∈ xs → body1 x = body2 x) → for_in xs body1 = for_in xs body2.
Proof.
  induction xs as [|x xs IH]; intros Hb; simpl; [reflexivity|].
  rewrite (Hb x) by left. rewrite IH; [reflexivity|]. intros y Hy. apply Hb. by right.
Qed.

Lemma for_loop_ext {A S} (xs : list A) (body1 body2 : S → A → result S) s :
  (∀ s' x, x ∈ xs → body1 s' x = body2 s' x) → for_loop xs body1 s = for_loop xs body2 s.
Proof.
  revert s. induction xs as [|x xs IH]; intros s Hb; simpl; [reflexivity|].
  rewrite (Hb s x) by left. apply bind_ext. intros s'.
  apply IH. intros s'' y Hy. apply Hb. by right.
Qed.

(** Two entries of [desired_shifts] for an employee that cannot be told
    apart on the 60 slots: both missing, or both present with the same slots
    of the grid. *)
Definition same_on_grid (w1 w2 : option (gset (Z * string))) : Prop :=
  match w1, w2 with
  | Some w1, Some w2 => ∀ d s, (d, s) ∈ slots → (d, s) ∈ w1 ↔ (d, s) ∈ w2
  | None, None => True
  | _, _ => False
  end.

Lemma wanted_branch_same {B : Type} (desired1 desired2 : desired_map) e d s (yes no : result B) :
  same_on_grid (desired1 !! e) (desired2 !! e) → (d, s) ∈ slots →
  (wanted ←! subscript desired1 e; if decide ((d, s) ∈ wanted) then yes else no) =
  (wanted ←! subscript desired2 e; if decide ((d, s) ∈ wanted) then yes else no).
Proof.
  intros Hsame Hin. unfold subscript, same_on_grid in *.
  destruct (desired1 !! e) as [w1|], (desired2 !! e) as [w2|];
    try reflexivity; try (exfalso; exact Hsame).
  simpl. specialize (Hsame d s Hin).
  destruct (decide ((d, s) ∈ w1)), (decide ((d, s) ∈ w2)); try reflexivity;
    exfalso; tauto.
Qed.

Lemma unwanted_branch_same {B : Type} (desired1 desired2 : desired_map) e d s (yes no : result B) :
  same_on_grid (desired1 !! e) (desired2 !! e) → (d, s) ∈ slots →
  (wanted ←! subscript desired1 e; if decide ((d, s) ∉ wanted) then yes else no) =
  (wanted ←! subscript desired2 e; if decide ((d, s) ∉ wanted) then yes else no).
Proof.
  intros Hsame Hin. unfold subscript, same_on_grid in *.
  destruct (desired1 !! e) as [w1|], (desired2 !! e) as [w2|];
    try reflexivity; try (exfalso; exact Hsame).
  simpl. specialize (Hsame d s Hin).
  destruct (decide ((d, s) ∉ w1)), (decide ((d, s) ∉ w2)); try reflexivity;
    exfalso; tauto.
Qed.

Section same_on_grid.
Variable employees : list string.
Variables desired1 desired2 : desired_map.
Hypothesis Hsame : ∀ e, e ∈ employees → same_on_grid (desired1 !! e) (desired2 !! e).

Lemma objective_expr_same shifts shortages :
  objective_expr employees desired1 shifts shortages =
  objective_expr employees desired2 shifts shortages.
Proof.
  unfold objective_expr. apply bind_ext; intros penalised. f_equal.
  apply for_in_ext; intros e He. apply for_in_ext; intros d Hd.
  apply for_in_ext; intros s Hs.
  apply wanted_branch_same; [apply Hsame, He|]. apply elem_of_slots. by split.
Qed.

Lemma add_preference_locks_same shifts prob :
  add_preference_locks employees desired1 shifts prob =
  add_preference_locks employees desired2 shifts prob.
Proof.
  unfold add_preference_locks.
  apply for_loop_ext; intros p e He. apply for_loop_ext; intros p' d Hd.
  apply for_loop_ext; intros p'' s Hs.
  apply unwanted_branch_same; [apply Hsame, He|]. apply elem_of_slots. by split.
Qed.

Lemma build_problem_same required_shifts :
  build_problem employees desired1 required_shifts =
  build_problem employees desired2 required_shifts.
Proof.
  unfold build_problem. destruct (declare_variables employees) as [shifts shortages].
  rewrite objective_expr_same. apply bind_ext; intros obj.
  apply bind_ext; intros prob. by rewrite add_preference_locks_same.
Qed.
End same_on_grid.

(** Sato and Suzuki again, with wishes for days and shift types that do not
    exist. *)
Definition rivals_padded : desired_map :=
  {[ "Sato" := {[ (1, "Morning"); (0, "Morning"); (31, "Evening"); (1, "Night") ]};
     "Suzuki" := {[ (1, "Morning"); (40, "Morning") ]} ]}.

(** C10: entries of [desired_shifts] outside the 60-slot grid are ignored.
    Two inputs that agree, for every listed employee, on the slots of the
    grid lead to the same dictionaries and the same problem (or to the same
    exception), and with the same solver to the same two tables. *)
Theorem off_grid_wishes_ignored employees desired1 desired2 required_shifts :
  (∀ e, e ∈ employees → same_on_grid (desired1 !! e) (desired2 !! e)) →
  build_problem employees desired1 required_shifts =
    build_problem employees desired2 required_shifts ∧
  ∀ solve,
    generate_shifts solve employees desired1 required_shifts =
    generate_shifts solve employees desired2 required_shifts.
Proof.
  intros Hsame. split; [by apply build_problem_same|].
  intros solve. unfold generate_shifts. by rewrite (build_problem_same _ _ _ Hsame).
Qed.

Lemma rivals_padded_same e :
  e ∈ rivals → same_on_grid (rivals_desired !! e) (rivals_padded !! e).
Proof.
  intros He. unfold rivals in He.
  assert (e = "Sato" ∨ e = "Suzuki") as [Heq|Heq]
    by (rewrite !elem_of_cons in He; destruct He as [?|[?|?%elem_of_nil]]; tauto).
  - subst e.
    replace (rivals_desired !! "Sato") with (Some ({[ (1, "Morning") ]} : gset (Z * string)))
      by (vm_compute; reflexivity).
    replace (rivals_padded !! "Sato")
      with (Some ({[ (1, "Morning"); (0, "Morning"); (31, "Evening"); (1, "Night") ]}
                    : gset (Z * string)))
      by (vm_compute; reflexivity).
    intros d s [Hd%elem_of_days Hs%elem_of_shift_types]%elem_of_slots.
    rewrite !elem_of_union, !elem_of_singleton. split; [tauto|].
    intros [[[H|H]|H]|H]; [exact H|..]; injection H as Hd' Hs'; subst; try lia;
      destruct Hs; discriminate.
  - subst e.
    replace (rivals_desired !! "Suzuki") with (Some ({[ (1, "Morning") ]} : gset (Z * string)))
      by (vm_compute; reflexivity).
    replace (rivals_padded !! "Suzuki")
      with (Some ({[ (1, "Morning"); (40, "Morning") ]} : gset (Z * string)))
      by (vm_compute; reflexivity).
    intros d s [Hd%elem_of_days Hs%elem_of_shift_types]%elem_of_slots.
    rewrite !elem_of_union, !elem_of_singleton. split; [tauto|].
    intros [H|H]; [exact H|]. injection H as Hd' Hs'. lia.
Qed.

Lemma off_grid_wishes_ignored_witness :
  build_problem rivals rivals_desired one_each =
    build_problem rivals rivals_padded one_each ∧
  generate_shifts (reference_solver rivals rivals_desired one_each)
    rivals rivals_desired one_each =
  generate_shifts (reference_solver rivals rivals_desired one_each)
    rivals rivals_padded one_each.
Proof.
  destruct (off_grid_wishes_ignored rivals rivals_desired rivals_padded one_each
              rivals_padded_same) as [Hproblem Htables].
  split; [exact Hproblem|apply Htables].
Defined.

(** * Further properties of [generate_shifts] *)

(** ** When the call returns *)

(** The call returns tables exactly when every listed employee has an entry
    in [desired_shifts] and every day from 1 to 30 has an entry in
    [required_shifts] with both shift types; the lookups in [shifts] and
    [shortages] never fail, and the solver's answer plays no part. *)
Theorem returns_iff_keys_present solve employees desired_shifts required_shifts :
  (∃ tables, generate_shifts solve employees desired_shifts required_shifts = Ok tables) ↔
  (∀ e, e ∈ employees → is_Some (desired_shifts !! e)) ∧
  (∀ d, 1 ≤ d ≤ 30 →
     ∃ row, required_shifts !! d = Some row ∧
            is_Some (row !! "Morning") ∧ is_Some (row !! "Evening")).
Proof.
  split.
  - intros [tables [[Hdes Hreq] _]%generate_shifts_Ok]. split; [exact Hdes|].
    intros d Hd%elem_of_days.
    destruct (Hreq d "Morning") as (row & r & Hrow & Hr).
    { apply elem_of_slots. split; [exact Hd|apply shift_types_nonempty]. }
    destruct (Hreq d "Evening") as (row' & r' & Hrow' & Hr').
    { apply elem_of_slots. split; [exact Hd|]. apply elem_of_shift_types. right. reflexivity. }
    exists row. split; [exact Hrow|]. split; [exists r; exact Hr|].
    rewrite Hrow in Hrow'. injection Hrow' as <-. exists r'. exact Hr'.
  - intros [Hdes Hreq]. eexists. apply generate_shifts_Ok. split; [|reflexivity].
    split; [exact Hdes|].
    intros d s [Hd%elem_of_days Hs%elem_of_shift_types]%elem_of_slots.
    destruct (Hreq d Hd) as (row & Hrow & [rm Hm] & [re Hre]).
    exists row. destruct Hs as [Hs|Hs]; subst s; [exists rm|exists re]; split; assumption.
Qed.

(** ** The problem can always be solved *)

(** Whatever the inputs, the problem that is built has an optimal solution:
    it is feasible (the shortage variables absorb any demand) and its
    objective is bounded below. *)
Theorem built_problem_has_optimum employees desired_shifts required_shifts
    shifts shortages prob :
  build_problem employees desired_shifts required_shifts = Ok (shifts, shortages, prob) →
  ∃ v, optimal prob v.
Proof.
  intros Hb. apply build_problem_Ok_present in Hb as Hp.
  rewrite (build_problem_ok _ _ _ Hp) in Hb. injection Hb as _ _ <-.
  eexists. apply canonical_optimal.
Qed.

Lemma built_problem_has_optimum_witness :
  ∃ shifts shortages prob,
    build_problem rivals rivals_desired one_each = Ok (shifts, shortages, prob) ∧
    ∃ v, optimal prob v.
Proof.
  destruct (build_problem rivals rivals_desired one_each)
    as [[[shifts shortages] prob]|] eqn:Hb; [|vm_compute in Hb; discriminate Hb].
  exists shifts, shortages, prob. split; [reflexivity|].
  apply (built_problem_has_optimum rivals rivals_desired one_each shifts shortages prob Hb).
Defined.

(** ** The optimum in closed form *)

(** For a solver that returns an optimal solution, the tables are determined
    by the inputs: a listed employee is assigned a slot exactly when the slot
    is in that employee's desired set, whatever the required coverage, and
    the shortage of a slot is the required coverage minus the number of
    listed employees who desire it, or 0 when that is negative. *)
Theorem optimum_closed_form solve employees desired_shifts required_shifts
    pivot shortages_df :
  generate_shifts solve employees desired_shifts required_shifts = Ok (pivot, shortages_df) →
  solves_to_optimality solve employees desired_shifts required_shifts →
  (∀ e wanted d s,
     e ∈ employees → desired_shifts !! e = Some wanted → (d, s) ∈ slots →
     (assigned pivot e d s == if decide ((d, s) ∈ wanted) then 1 else 0)%Q) ∧
  (∀ d s, (d, s) ∈ slots →
     (shortage_of shortages_df d s ==
      inject_Z (Z.max 0 (required_of required_shifts d s -
                         Z.of_nat (headcount employees (wanted_of desired_shifts) d s))))%Q).
Proof.
  intros Hret Hopt.
  destruct (returned_optimal _ _ _ _ _ _ Hret Hopt) as [Hshift Hshort]. clear Hret Hopt.
  split.
  - intros e wanted d s He Hdes Hin. rewrite (Hshift e d s He Hin). simpl.
    unfold wanted_of. rewrite Hdes. simpl. reflexivity.
  - intros d s Hin. rewrite (Hshort d s Hin). simpl. reflexivity.
Qed.

Lemma optimum_closed_form_witness :
  ∃ pivot shortages_df,
    generate_shifts (reference_solver rivals rivals_desired one_each)
      rivals rivals_desired one_each = Ok (pivot, shortages_df) ∧
    (shortage_of shortages_df 1 "Morning" ==
     inject_Z (Z.max 0 (required_of one_each 1 "Morning" -
                        Z.of_nat (headcount rivals (wanted_of rivals_desired) 1 "Morning"))))%Q.
Proof.
  assert (∃ pivot shortages_df,
            generate_shifts (reference_solver rivals rivals_desired one_each)
              rivals rivals_desired one_each = Ok (pivot, shortages_df))
    as (pivot & shortages_df & Hret) by (eexists _, _; vm_compute; reflexivity).
  exists pivot, shortages_df. split; [exact Hret|].
  destruct (optimum_closed_form (reference_solver rivals rivals_desired one_each)
              rivals rivals_desired one_each pivot shortages_df Hret
              (reference_solver_optimal rivals rivals_desired one_each))
    as [_ Hshort].
  apply Hshort. apply elem_of_slots. split; [apply elem_of_days; lia|apply shift_types_nonempty].
Defined.

(** ** Reading the tables back *)

(** Whatever the solver returns, the two tables hold its values: for a listed
    employee and a slot the assignment table reads the value of that
    assignment variable, and for a slot the shortage table reads the value of
    its shortage variable (zero values are not stored and read as 0). *)
Theorem tables_hold_solved_values solve employees desired_shifts required_shifts
    shifts shortages prob pivot shortages_df :
  build_problem employees desired_shifts required_shifts = Ok (shifts, shortages, prob) →
  generate_shifts solve employees desired_shifts required_shifts = Ok (pivot, shortages_df) →
  (∀ e d s, e ∈ employees → (d, s) ∈ slots →
     (assigned pivot e d s == solve prob (ShiftVar e d s))%Q) ∧
  (∀ d s, (d, s) ∈ slots →
     (shortage_of shortages_df d s == solve prob (ShortageVar d s))%Q).
Proof.
  intros Hb Hret. apply build_problem_Ok_present in Hb as Hp.
  rewrite (build_problem_ok _ _ _ Hp) in Hb. injection Hb as _ _ <-.
  split.
  - apply (returned_assigned _ _ _ _ _ _ Hret).
  - apply (returned_shortage _ _ _ _ _ _ Hret).
Qed.

(** A solver that answers 1/2 everywhere, to read the tables of. *)
Definition half_solver : LpProblem → var_id → Q := λ _ _, (1 # 2)%Q.

Lemma tables_hold_solved_values_witness :
  ∃ shifts shortages prob pivot shortages_df,
    build_problem rivals rivals_desired one_each = Ok (shifts, shortages, prob) ∧
    generate_shifts half_solver rivals rivals_desired one_each = Ok (pivot, shortages_df) ∧
    (assigned pivot "Sato" 3 "Evening" == half_solver prob (ShiftVar "Sato" 3 "Evening"))%Q ∧
    (shortage_of shortages_df 3 "Evening" == half_solver prob (ShortageVar 3 "Evening"))%Q.
Proof.
  destruct (build_problem rivals rivals_desired one_each)
    as [[[shifts shortages] prob]|] eqn:Hb; [|vm_compute in Hb; discriminate Hb].
  assert (∃ pivot shortages_df,
            generate_shifts half_solver rivals rivals_desired one_each = Ok (pivot, shortages_df))
    as (pivot & shortages_df & Hret) by (eexists _, _; vm_compute; reflexivity).
  exists shifts, shortages, prob, pivot, shortages_df.
  split; [reflexivity|]. split; [exact Hret|].
  destruct (tables_hold_solved_values half_solver rivals rivals_desired one_each
              shifts shortages prob pivot shortages_df Hb Hret) as [Hshift Hshort].
  assert ((3, "Evening") ∈ slots) as Hin.
  { apply elem_of_slots. split; [apply elem_of_days; lia|].
    apply elem_of_shift_types. right. reflexivity. }
  split; [apply Hshift; [left|exact Hin]|apply Hshort, Hin].
Defined.

(** ** Shape of the two tables *)

(** The columns of the assignment table are the labels of the slots that some
    listed employee has a non-zero assignment in, each once, in the order of
    [string_le] (so "10-Morning" comes before "2-Morning"). *)
Theorem assignment_table_columns solve employees desired_shifts required_shifts
    shifts shortages prob pivot shortages_df :
  build_problem employees desired_shifts required_shifts = Ok (shifts, shortages, prob) →
  generate_shifts solve employees desired_shifts required_shifts = Ok (pivot, shortages_df) →
  NoDup (columns pivot) ∧ Sorted string_le (columns pivot) ∧
  (∀ l, l ∈ columns pivot ↔
        ∃ e d s, e ∈ employees ∧ (d, s) ∈ slots ∧ l = slot_label d s ∧
                 ¬ (solve prob (ShiftVar e d s) == 0)%Q).
Proof.
  intros Hb Hret. apply build_problem_Ok_present in Hb as Hp.
  rewrite (build_problem_ok _ _ _ Hp) in Hb. injection Hb as _ _ <-.
  rewrite (returned_pivot _ _ _ _ _ _ Hret). clear Hret Hp.
  set (v := solve _). unfold pivot_table. cbn [columns].
  split; [apply NoDup_sorted_unique|]. split; [apply Sorted_merge_sort, _|].
  intros l. rewrite elem_of_sorted_unique. split.
  - intros ([[e l'] q] & Hl & Hr)%list_elem_of_fmap. simpl in Hl. subst l'.
    apply elem_of_shifts_data in Hr as (d & s & He & Hin & Hl & Hq & Hnz).
    exists e, d, s. split; [exact He|]. split; [exact Hin|]. split; [exact Hl|].
    subst q. apply nonzero_true, Hnz.
  - intros (e & d & s & He & Hin & Hl & Hnz). apply list_elem_of_fmap.
    exists (e, l, v (ShiftVar e d s)). split; [reflexivity|].
    apply elem_of_shifts_data. exists d, s.
    split; [exact He|]. split; [exact Hin|]. split; [exact Hl|]. split; [reflexivity|].
    apply nonzero_true, Hnz.
Qed.

Lemma assignment_table_columns_witness :
  ∃ shifts shortages prob pivot shortages_df,
    build_problem rivals rivals_desired one_each = Ok (shifts, shortages, prob) ∧
    generate_shifts half_solver rivals rivals_desired one_each = Ok (pivot, shortages_df) ∧
    NoDup (columns pivot) ∧ Sorted string_le (columns pivot).
Proof.
  destruct (build_problem rivals rivals_desired one_each)
    as [[[shifts shortages] prob]|] eqn:Hb; [|vm_compute in Hb; discriminate Hb].
  assert (∃ pivot shortages_df,
            generate_shifts half_solver rivals rivals_desired one_each = Ok (pivot, shortages_df))
    as (pivot & shortages_df & Hret) by (eexists _, _; vm_compute; reflexivity).
  exists shifts, shortages, prob, pivot, shortages_df.
  split; [reflexivity|]. split; [exact Hret|].
  destruct (assignment_table_columns half_solver rivals rivals_desired one_each
              shifts shortages prob pivot shortages_df Hb Hret) as (Hnd & Hsorted & _).
  split; [exact Hnd|exact Hsorted].
Defined.

Example columns_sorted_as_strings :
  ∃ pivot shortages_df,
    generate_shifts half_solver ["Sato"] (morning_person "Sato") one_each =
      Ok (pivot, shortages_df) ∧
    take 4 (columns pivot) = ["1-Evening"; "1-Morning"; "10-Evening"; "10-Morning"].
Proof. eexists _, _. split; vm_compute; reflexivity. Qed.

Lemma items_fill_shortages :
  PyDict.items fill_shortages = (λ sl, (sl, shortage_variable sl.1 sl.2)) <$> slots.
Proof. vm_compute. reflexivity. Qed.

Lemma shortages_data_filter v :
  shortages_data fill_shortages v =
  (λ sl, (slot_label sl.1 sl.2, v (ShortageVar sl.1 sl.2))) <$>
    filter (λ sl, nonzero (v (ShortageVar sl.1 sl.2)) = true) slots.
Proof.
  unfold shortages_data. rewrite items_fill_shortages.
  induction slots as [|[d s] l IH]; [reflexivity|].
  rewrite fmap_cons, filter_cons. cbn [omap list_omap fst snd var_ident shortage_variable].
  fold (@omap list _ _ _
          (λ '(day, shift_type, value),
             if nonzero (v (var_ident value))
             then Some (slot_label day shift_type, v (var_ident value)) else None)).
  destruct (nonzero (v (ShortageVar d s))) eqn:Hnz.
  - rewrite decide_True by reflexivity. rewrite fmap_cons. f_equal. exact IH.
  - rewrite decide_False by discriminate. exact IH.
Qed.

(** The rows of the shortage table are the slots with a non-zero solved
    shortage, in the order the slots were declared (day 1 Morning, day 1
    Evening, day 2 Morning, ...), each holding the solved value. *)
Theorem shortage_rows_in_slot_order solve employees desired_shifts required_shifts
    shifts shortages prob pivot shortages_df :
  build_problem employees desired_shifts required_shifts = Ok (shifts, shortages, prob) →
  generate_shifts solve employees desired_shifts required_shifts = Ok (pivot, shortages_df) →
  let short := filter (λ sl, nonzero (solve prob (ShortageVar sl.1 sl.2)) = true) slots in
  index shortages_df = (λ sl, slot_label sl.1 sl.2) <$> short ∧
  values shortages_df = (λ sl, [solve prob (ShortageVar sl.1 sl.2)]) <$> short ∧
  take 3 slots = [(1, "Morning"); (1, "Evening"); (2, "Morning")].
Proof.
  intros Hb Hret. apply build_problem_Ok_present in Hb as Hp.
  rewrite (build_problem_ok _ _ _ Hp) in Hb. injection Hb as _ _ <-.
  rewrite (returned_shortages_df _ _ _ _ _ _ Hret). clear Hret Hp.
  set (v := solve _). intros short. unfold shortage_frame. cbn [index values].
  rewrite shortages_data_filter. fold short.
  split; [|split; [|reflexivity]].
  - rewrite <- list_fmap_compose. reflexivity.
  - rewrite map_map. reflexivity.
Qed.

Lemma shortage_rows_in_slot_order_witness :
  ∃ shifts shortages prob pivot shortages_df,
    build_problem rivals rivals_desired one_each = Ok (shifts, shortages, prob) ∧
    generate_shifts half_solver rivals rivals_desired one_each = Ok (pivot, shortages_df) ∧
    index shortages_df =
      (λ sl, slot_label sl.1 sl.2) <$>
        filter (λ sl, nonzero (half_solver prob (ShortageVar sl.1 sl.2)) = true) slots.
Proof.
  destruct (build_problem rivals rivals_desired one_each)
    as [[[shifts shortages] prob]|] eqn:Hb; [|vm_compute in Hb; discriminate Hb].
  assert (∃ pivot shortages_df,
            generate_shifts half_solver rivals rivals_desired one_each = Ok (pivot, shortages_df))
    as (pivot & shortages_df & Hret) by (eexists _, _; vm_compute; reflexivity).
  exists shifts, shortages, prob, pivot, shortages_df.
  split; [reflexivity|]. split; [exact Hret|].
  destruct (shortage_rows_in_slot_order half_solver rivals rivals_desired one_each
              shifts shortages prob pivot shortages_df Hb Hret) as (Hindex & _).
  exact Hindex.
Defined.

(** ** Shortages are never negative *)

(** For solved values within the declared bounds, every amount in the
    shortage table is strictly positive: shortage variables are bounded below
    by 0, and zero shortages are left out of the table. *)
Theorem shortage_rows_positive solve employees desired_shifts required_shifts
    shifts shortages prob pivot shortages_df :
  build_problem employees desired_shifts required_shifts = Ok (shifts, shortages, prob) →
  generate_shifts solve employees desired_shifts required_shifts = Ok (pivot, shortages_df) →
  feasible prob (solve prob) →
  (∀ row q, row ∈ values shortages_df → q ∈ row → (0 < q)%Q) ∧
  (∀ d s, (d, s) ∈ slots → (0 <= shortage_of shortages_df d s)%Q).
Proof.
  intros Hb Hret Hfeas. apply build_problem_Ok_present in Hb as Hp.
  rewrite (build_problem_ok _ _ _ Hp) in Hb. injection Hb as _ _ <-.
  apply feasible_model in Hfeas.
  pose proof (returned_shortage _ _ _ _ _ _ Hret) as Hshown.
  pose proof (returned_shortages_df _ _ _ _ _ _ Hret) as Hdf. clear Hret Hp.
  subst shortages_df. set (v := solve _) in *. split.
  - unfold shortage_frame. cbn [values].
    intros row q ([l q'] & Hrow & Hr)%list_elem_of_fmap Hq. subst row.
    apply list_elem_of_singleton in Hq. simpl in Hq. subst q'.
    apply elem_of_shortages_data in Hr as (d & s & Hin & _ & Hq & Hnz).
    apply nonzero_true in Hnz.
    pose proof (shortage_nonneg _ _ _ _ Hfeas d s Hin) as Hge. subst q.
    apply Qle_lt_or_eq in Hge as [Hlt|Heq]; [exact Hlt|].
    exfalso. apply Hnz. symmetry. exact Heq.
  - intros d s Hin. rewrite (Hshown d s Hin).
    apply (shortage_nonneg _ _ _ _ Hfeas d s Hin).
Qed.

Lemma shortage_rows_positive_witness :
  ∃ pivot shortages_df,
    generate_shifts (reference_solver rivals rivals_desired one_each)
      rivals rivals_desired one_each = Ok (pivot, shortages_df) ∧
    ∀ row q, row ∈ values shortages_df → q ∈ row → (0 < q)%Q.
Proof.
  destruct (build_problem rivals rivals_desired one_each)
    as [[[shifts shortages] prob]|] eqn:Hb; [|vm_compute in Hb; discriminate Hb].
  assert (∃ pivot shortages_df,
            generate_shifts (reference_solver rivals rivals_desired one_each)
              rivals rivals_desired one_each = Ok (pivot, shortages_df))
    as (pivot & shortages_df & Hret) by (eexists _, _; vm_compute; reflexivity).
  exists pivot, shortages_df. split; [exact Hret|].
  destruct (shortage_rows_positive (reference_solver rivals rivals_desired one_each)
              rivals rivals_desired one_each shifts shortages prob pivot shortages_df
              Hb Hret) as [Hpos _]; [|exact Hpos].
  apply (reference_solver_optimal rivals rivals_desired one_each _ _ _ Hb).
Defined.

(** ** The answer does not depend on the solver *)

(** Two tables with the same labels and equal numbers. *)
Definition same_frame (df1 df2 : DataFrame) : Prop :=
  index df1 = index df2 ∧ columns df1 = columns df2 ∧
  Forall2 (Forall2 Qeq) (values df1) (values df2).

Definition same_record {K} (r1 r2 : K * Q) : Prop := r1.1 = r2.1 ∧ (r1.2 == r2.2)%Q.

Lemma nonzero_proper q1 q2 : (q1 == q2)%Q → nonzero q1 = nonzero q2.
Proof.
  intros Heq. destruct (nonzero q2) eqn:H2.
  - apply nonzero_true. apply nonzero_true in H2. intros H1. apply H2.
    rewrite <- Heq. exact H1.
  - apply nonzero_false. apply nonzero_false in H2. rewrite Heq. exact H2.
Qed.

Lemma shifts_data_proper (shifts : shifts_dict) v1 v2 :
  (∀ k x, (k, x) ∈ PyDict.items shifts → (v1 (var_ident x) == v2 (var_ident x))%Q) →
  Forall2 same_record (shifts_data shifts v1) (shifts_data shifts v2).
Proof.
  unfold shifts_data, PyDict.items.
  induction shifts as [|[[[e d] s] x] shifts IH]; intros Heq; [constructor|].
  assert (v1 (var_ident x) == v2 (var_ident x))%Q as Hx by (apply (Heq (e, d, s)); left).
  assert (Forall2 same_record
            (omap (λ '(employee, day, shift_type, value),
                     if nonzero (v1 (var_ident value))
                     then Some (employee, slot_label day shift_type, v1 (var_ident value))
                     else None) shifts)
            (omap (λ '(employee, day, shift_type, value),
                     if nonzero (v2 (var_ident value))
                     then Some (employee, slot_label day shift_type, v2 (var_ident value))
                     else None) shifts)) as Hrest.
  { apply IH. intros k y Hy. apply (Heq k). right. exact Hy. }
  cbn [omap list_omap]. rewrite (nonzero_proper _ _ Hx).
  destruct (nonzero (v2 (var_ident x))); [|exact Hrest].
  constructor; [split; [reflexivity|exact Hx]|exact Hrest].
Qed.

Lemma shortages_data_proper (shortages : shortages_dict) v1 v2 :
  (∀ k x, (k, x) ∈ PyDict.items shortages → (v1 (var_ident x) == v2 (var_ident x))%Q) →
  Forall2 same_record (shortages_data shortages v1) (shortages_data shortages v2).
Proof.
  unfold shortages_data, PyDict.items.
  induction shortages as [|[[d s] x] shortages IH]; intros Heq; [constructor|].
  assert (v1 (var_ident x) == v2 (var_ident x))%Q as Hx by (apply (Heq (d, s)); left).
  assert (Forall2 same_record
            (omap (λ '(day, shift_type, value),
                     if nonzero (v1 (var_ident value))
                     then Some (slot_label day shift_type, v1 (var_ident value))
                     else None) shortages)
            (omap (λ '(day, shift_type, value),
                     if nonzero (v2 (var_ident value))
                     then Some (slot_label day shift_type, v2 (var_ident value))
                     else None) shortages)) as Hrest.
  { apply IH. intros k y Hy. apply (Heq k). right. exact Hy. }
  cbn [omap list_omap]. rewrite (nonzero_proper _ _ Hx).
  destruct (nonzero (v2 (var_ident x))); [|exact Hrest].
  constructor; [split; [reflexivity|exact Hx]|exact Hrest].
Qed.

Lemma same_record_keys {K} (rs1 rs2 : list (K * Q)) :
  Forall2 same_record rs1 rs2 → rs1.*1 = rs2.*1.
Proof.
  induction 1 as [|r1 r2 rs1 rs2 [Hk _] _ IH]; [reflexivity|].
  rewrite !fmap_cons, Hk, IH. reflexivity.
Qed.

Lemma same_record_filter {K} (P : K → Prop) `{∀ k, Decision (P k)} (rs1 rs2 : list (K * Q)) :
  Forall2 same_record rs1 rs2 →
  Forall2 same_record (filter (λ r, P r.1) rs1) (filter (λ r, P r.1) rs2).
Proof.
  induction 1 as [|r1 r2 rs1 rs2 [Hk Hq] _ IH]; [constructor|].
  rewrite !filter_cons. rewrite <- Hk.
  destruct (decide (P r1.1)); [|exact IH].
  constructor; [split; assumption|exact IH].
Qed.

Lemma same_record_mean {K} (rs1 rs2 : list (K * Q)) :
  Forall2 same_record rs1 rs2 → (mean (map snd rs1) == mean (map snd rs2))%Q.
Proof.
  intros Hrs. unfold mean.
  assert (sumQ (map snd rs1) == sumQ (map snd rs2))%Q as Hsum.
  { induction Hrs as [|r1 r2 rs1 rs2 [_ Hq] _ IH]; [reflexivity|].
    simpl. rewrite Hq, IH. reflexivity. }
  rewrite !length_map, (Forall2_length _ _ _ Hrs), Hsum. reflexivity.
Qed.

Lemma pivot_cell_proper rs1 rs2 fill row col :
  Forall2 same_record rs1 rs2 →
  (pivot_cell rs1 fill row col == pivot_cell rs2 fill row col)%Q.
Proof.
  intros Hrs. unfold pivot_cell.
  pose proof (same_record_filter (λ k : string * string, k.1 = row ∧ k.2 = col) rs1 rs2 Hrs)
    as Hgroup.
  destruct Hgroup as [|r1 r2 g1 g2 Hr Hg]; [reflexivity|].
  apply (same_record_mean (r1 :: g1) (r2 :: g2)). constructor; assumption.
Qed.

Lemma same_record_labels (rs1 rs2 : list (string * string * Q)) :
  Forall2 same_record rs1 rs2 →
  map (λ r, r.1.1) rs1 = map (λ r, r.1.1) rs2 ∧
  map (λ r, r.1.2) rs1 = map (λ r, r.1.2) rs2.
Proof.
  induction 1 as [|r1 r2 l1 l2 [Hk _] _ [IH1 IH2]]; [split; reflexivity|].
  simpl. rewrite Hk, IH1, IH2. split; reflexivity.
Qed.

Lemma pivot_table_proper rs1 rs2 :
  Forall2 same_record rs1 rs2 → same_frame (pivot_table rs1) (pivot_table rs2).
Proof.
  intros Hrs.
  pose proof (same_record_labels _ _ Hrs) as [Hrows Hcols].
  unfold same_frame, pivot_table. cbn [index columns values].
  rewrite Hrows, Hcols. split; [reflexivity|]. split; [reflexivity|].
  apply Forall2_fmap, Forall_Forall2_diag, Forall_forall. intros row _.
  apply Forall2_fmap, Forall_Forall2_diag, Forall_forall. intros col _.
  apply pivot_cell_proper, Hrs.
Qed.

Lemma shortage_frame_proper rs1 rs2 :
  Forall2 same_record rs1 rs2 → same_frame (shortage_frame rs1) (shortage_frame rs2).
Proof.
  intros Hrs. unfold same_frame, shortage_frame. cbn [index columns values].
  split; [apply (same_record_keys _ _ Hrs)|]. split; [reflexivity|].
  induction Hrs as [|r1 r2 rs1 rs2 [_ Hq] _ IH]; [constructor|].
  constructor; [constructor; [exact Hq|constructor]|exact IH].
Qed.

(** The optimum is unique, so any two solvers that return an optimal solution
    yield the same tables: the same row and column labels in the same order
    and equal numbers in every cell.  There are no ties to break. *)
Theorem tables_independent_of_solver solve1 solve2 employees desired_shifts
    required_shifts pivot1 shortages_df1 :
  solves_to_optimality solve1 employees desired_shifts required_shifts →
  solves_to_optimality solve2 employees desired_shifts required_shifts →
  generate_shifts solve1 employees desired_shifts required_shifts =
    Ok (pivot1, shortages_df1) →
  ∃ pivot2 shortages_df2,
    generate_shifts solve2 employees desired_shifts required_shifts =
      Ok (pivot2, shortages_df2) ∧
    same_frame pivot1 pivot2 ∧ same_frame shortages_df1 shortages_df2.
Proof.
  intros Hopt1 Hopt2 Hret.
  pose proof (returned_present _ _ _ _ _ _ Hret) as Hp.
  pose proof (returned_pivot _ _ _ _ _ _ Hret) as Hpivot.
  pose proof (returned_shortages_df _ _ _ _ _ _ Hret) as Hdf. clear Hret.
  pose proof (Hopt1 _ _ _ (build_problem_ok _ _ _ Hp)) as H1.
  pose proof (Hopt2 _ _ _ (build_problem_ok _ _ _ Hp)) as H2. clear Hopt1 Hopt2.
  apply optimal_values in H1 as [Hshift1 Hshort1].
  apply optimal_values in H2 as [Hshift2 Hshort2].
  set (prob := model employees (wanted_of desired_shifts) (required_of required_shifts)) in *.
  exists (pivot_table (shifts_data (fill_shifts employees) (solve2 prob))),
         (shortage_frame (shortages_data fill_shortages (solve2 prob))).
  split; [apply generate_shifts_Ok; split; [exact Hp|reflexivity]|].
  subst pivot1 shortages_df1. split.
  - apply pivot_table_proper, shifts_data_proper.
    intros [[e d] s] x (He & Hin & Hx)%elem_of_items_shifts. subst x.
    cbn [var_ident shift_variable].
    rewrite (Hshift1 e d s He Hin), (Hshift2 e d s He Hin). reflexivity.
  - apply shortage_frame_proper, shortages_data_proper.
    intros [d s] x (Hin & Hx)%elem_of_items_shortages. subst x.
    cbn [var_ident shortage_variable].
    rewrite (Hshort1 d s Hin), (Hshort2 d s Hin). reflexivity.
Qed.

(** A second solver that meets the contract: it differs from the reference
    solver in the representation of its numbers and outside the problem's
    variables. *)
Definition unreduced_solver (employees : list string) (desired_shifts : desired_map)
    (required_shifts : required_map) : LpProblem → var_id → Q :=
  λ prob x,
    let q := reference_solver employees desired_shifts required_shifts prob x in
    (Qnum q * 2 # Qden q * 2)%Q.

Lemma in_domain_proper x q1 q2 : (q1 == q2)%Q → in_domain x q2 → in_domain x q1.
Proof.
  intros Heq (Hlo & Hhi & Hcat). split; [|split].
  - destruct (lowBound x); simpl in *; [rewrite Heq; exact Hlo|exact I].
  - destruct (upBound x); simpl in *; [rewrite Heq; exact Hhi|exact I].
  - destruct (cat x); [exact I| |].
    + destruct Hcat as [z Hz]. exists z. rewrite Heq. exact Hz.
    + rewrite Heq. exact Hcat.
Qed.

Lemma unreduced_solver_optimal employees desired_shifts required_shifts :
  solves_to_optimality (unreduced_solver employees desired_shifts required_shifts)
    employees desired_shifts required_shifts.
Proof.
  intros shifts shortages prob Hb.
  pose proof (reference_solver_optimal employees desired_shifts required_shifts
                shifts shortages prob Hb) as Href.
  apply build_problem_Ok_present in Hb as Hp.
  rewrite (build_problem_ok _ _ _ Hp) in Hb. injection Hb as _ _ <-.
  set (prob := model employees (wanted_of desired_shifts) (required_of required_shifts)) in *.
  assert (∀ x, (unreduced_solver employees desired_shifts required_shifts prob x ==
                reference_solver employees desired_shifts required_shifts prob x)%Q) as Heq.
  { intros x. unfold unreduced_solver. cbv zeta.
    destruct (reference_solver employees desired_shifts required_shifts prob x) as [n m].
    unfold Qeq. simpl. lia. }
  assert (∀ e : LpAffineExpression,
            (eval e (unreduced_solver employees desired_shifts required_shifts prob) ==
             eval e (reference_solver employees desired_shifts required_shifts prob))%Q)
    as Heval.
  { intros e. unfold eval. apply Qplus_comp; [|reflexivity].
    induction (terms e) as [|t ts IH]; [reflexivity|].
    simpl. rewrite IH, (Heq (var_ident t.1)). reflexivity. }
  destruct Href as [[Hdom Hcs] Hmin]. split; [split|].
  - intros x Hx. apply (in_domain_proper x _ _ (Heq (var_ident x))), Hdom, Hx.
  - intros c Hc. specialize (Hcs c Hc). unfold satisfies in *.
    destruct (sense c); rewrite (Heval (lhs c)); exact Hcs.
  - intros v' Hv'. specialize (Hmin v' Hv').
    destruct (prob_sense prob); rewrite (Heval (objective prob)); exact Hmin.
Qed.

Lemma tables_independent_of_solver_witness :
  ∃ pivot1 shortages_df1 pivot2 shortages_df2,
    generate_shifts (reference_solver rivals rivals_desired one_each)
      rivals rivals_desired one_each = Ok (pivot1, shortages_df1) ∧
    generate_shifts (unreduced_solver rivals rivals_desired one_each)
      rivals rivals_desired one_each = Ok (pivot2, shortages_df2) ∧
    same_frame pivot1 pivot2 ∧ same_frame shortages_df1 shortages_df2.
Proof.
  assert (∃ pivot shortages_df,
            generate_shifts (reference_solver rivals rivals_desired one_each)
              rivals rivals_desired one_each = Ok (pivot, shortages_df))
    as (pivot1 & shortages_df1 & Hret) by (eexists _, _; vm_compute; reflexivity).
  destruct (tables_independent_of_solver
              (reference_solver rivals rivals_desired one_each)
              (unreduced_solver rivals rivals_desired one_each)
              rivals rivals_desired one_each pivot1 shortages_df1
              (reference_solver_optimal rivals rivals_desired one_each)
              (unreduced_solver_optimal rivals rivals_desired one_each) Hret)
    as (pivot2 & shortages_df2 & Hret2 & Hpivot & Hshort).
  exists pivot1, shortages_df1, pivot2, shortages_df2.
  split; [exact Hret|]. split; [exact Hret2|]. split; [exact Hpivot|exact Hshort].
Defined.

(** ** Entries of [required_shifts] outside the grid *)

(** Two entries of [required_shifts] for a day that cannot be told apart by
    the function: both missing, or both present with the same Morning and
    Evening entries. *)
Definition same_demand (r1 r2 : option (gmap string Z)) : Prop :=
  match r1, r2 with
  | Some r1, Some r2 => ∀ s, s ∈ shift_types → r1 !! s = r2 !! s
  | None, None => True
  | _, _ => False
  end.

Lemma coverage_constraint_same employees required1 required2 shifts shortages d s :
  same_demand (required1 !! d) (required2 !! d) → s ∈ shift_types →
  coverage_constraint employees required1 shifts shortages d s =
  coverage_constraint employees required2 shifts shortages d s.
Proof.
  intros Hsame Hs. unfold coverage_constraint.
  apply bind_ext; intros staffed. apply bind_ext; intros shortage.
  unfold subscript at 1 3. unfold same_demand in Hsame.
  destruct (required1 !! d) as [r1|], (required2 !! d) as [r2|];
    try reflexivity; try (exfalso; exact Hsame).
  rewrite !bind_Ok. unfold subscript. rewrite (Hsame s Hs). reflexivity.
Qed.

(** Entries of [required_shifts] for days outside 1..30 and for shift types
    other than Morning and Evening are ignored: two inputs that agree on the
    60 slots build the same problem (or raise the same exception) and return
    the same tables. *)
Theorem off_grid_demand_ignored employees desired_shifts required1 required2 :
  (∀ d, 1 ≤ d ≤ 30 → same_demand (required1 !! d) (required2 !! d)) →
  build_problem employees desired_shifts required1 =
    build_problem employees desired_shifts required2 ∧
  ∀ solve,
    generate_shifts solve employees desired_shifts required1 =
    generate_shifts solve employees desired_shifts required2.
Proof.
  intros Hsame.
  assert (build_problem employees desired_shifts required1 =
          build_problem employees desired_shifts required2) as Hb.
  { unfold build_problem. destruct (declare_variables employees) as [shifts shortages].
    apply bind_ext; intros obj.
    assert (∀ prob,
              add_coverage_constraints employees required1 shifts shortages prob =
              add_coverage_constraints employees required2 shifts shortages prob) as Hcov.
    { intros prob. unfold add_coverage_constraints.
      apply for_loop_ext; intros p d Hd. apply for_loop_ext; intros p' s Hs.
      rewrite (coverage_constraint_same employees required1 required2 shifts shortages d s);
        [reflexivity| |exact Hs].
      apply Hsame, elem_of_days, Hd. }
    rewrite Hcov. reflexivity. }
  split; [exact Hb|]. intros solve. unfold generate_shifts. rewrite Hb. reflexivity.
Qed.

(** [one_each] with a row for day 31 and a night shift on day 1. *)
Definition one_each_padded : required_map :=
  <[31 := {[ "Morning" := 5 ]}]>
    (<[1 := {[ "Morning" := 1; "Evening" := 1; "Night" := 9 ]}]> one_each).

Lemma one_each_padded_same d :
  1 ≤ d ≤ 30 → same_demand (one_each !! d) (one_each_padded !! d).
Proof.
  intros Hd. unfold one_each_padded.
  rewrite lookup_insert_ne by lia.
  unfold one_each at 1. rewrite (every_day_lookup _ d) by (apply elem_of_days, Hd).
  destruct (decide (d = 1)) as [Heq|Hne].
  - subst d. rewrite lookup_insert_eq.
    intros s [Hs|Hs]%elem_of_shift_types; subst s; vm_compute; reflexivity.
  - rewrite lookup_insert_ne by (intros Heq; apply Hne; symmetry; exact Heq).
    unfold one_each. rewrite (every_day_lookup _ d) by (apply elem_of_days, Hd).
    intros s _. reflexivity.
Qed.

Lemma off_grid_demand_ignored_witness :
  build_problem rivals rivals_desired one_each =
    build_problem rivals rivals_desired one_each_padded ∧
  generate_shifts (reference_solver rivals rivals_desired one_each)
    rivals rivals_desired one_each =
  generate_shifts (reference_solver rivals rivals_desired one_each)
    rivals rivals_desired one_each_padded.
Proof.
  destruct (off_grid_demand_ignored rivals rivals_desired one_each one_each_padded
              one_each_padded_same) as [Hproblem Htables].
  split; [exact Hproblem|apply Htables].
Defined.

(** ** Names of the variables *)

(** The part of a variable's name after the employee (or after "Shortage"). *)
Definition name_suffix (day : Z) (shift_type : string) : string :=
  "_" +:+ pretty day +:+ "_" +:+ shift_type.

Lemma shift_variable_name e d s : var_name (shift_variable e d s) = e +:+ name_suffix d s.
Proof. reflexivity. Qed.

Lemma shortage_variable_name d s :
  var_name (shortage_variable d s) = "Shortage" +:+ name_suffix d s.
Proof. reflexivity. Qed.

Fixpoint suffixes (s : string) : list string :=
  s :: match s with
       | EmptyString => []
       | String _ s' => suffixes s'
       end.

Lemma suffixes_append t s : s ∈ suffixes (t +:+ s).
Proof.
  induction t as [|c t IH]; simpl.
  - destruct s; left.
  - right. exact IH.
Qed.

Lemma append_length t s : String.length (t +:+ s) = (String.length t + String.length s)%nat.
Proof. induction t as [|c t IH]; simpl; [reflexivity|]. rewrite IH. reflexivity. Qed.

Lemma append_eq_self t s : t +:+ s = s → t = "".
Proof.
  intros Heq. apply (f_equal String.length) in Heq. rewrite append_length in Heq.
  destruct t; [reflexivity|]. simpl in Heq. lia.
Qed.

Lemma append_nil_r s : s +:+ "" = s.
Proof.
  induction s as [|c s IH]; [reflexivity|].
  change (String c (s +:+ "") = String c s). rewrite IH. reflexivity.
Qed.

(** Two concatenations are equal only when one tail is a tail of the other. *)
Lemma append_eq_cases e1 e2 s1 s2 :
  e1 +:+ s1 = e2 +:+ s2 →
  (∃ t, e1 = e2 +:+ t ∧ s2 = t +:+ s1) ∨ (∃ t, e2 = e1 +:+ t ∧ s1 = t +:+ s2).
Proof.
  revert e2. induction e1 as [|c e1 IH]; intros e2 Heq.
  - right. exists e2. split; [reflexivity|exact Heq].
  - destruct e2 as [|c' e2].
    + left. exists (String c e1). split; [reflexivity|]. symmetry. exact Heq.
    + simpl in Heq. injection Heq as Hc Heq. subst c'.
      destruct (IH e2 Heq) as [(t & He & Hs)|(t & He & Hs)].
      * left. exists t. split; [simpl; rewrite He; reflexivity|exact Hs].
      * right. exists t. split; [simpl; rewrite He; reflexivity|exact Hs].
Qed.

Definition name_suffixes : list string := (λ sl, name_suffix sl.1 sl.2) <$> slots.

(** No name suffix of a slot is the tail of another one. *)
Lemma name_suffixes_tail_free :
  Forall (λ b, Forall (λ a, a ∈ suffixes b → a = b) name_suffixes) name_suffixes.
Proof. apply (bool_decide_unpack _). vm_compute. exact I. Qed.

Lemma NoDup_name_suffixes : NoDup name_suffixes.
Proof. apply (bool_decide_unpack _). vm_compute. exact I. Qed.

Lemma name_suffix_inj d1 s1 d2 s2 :
  (d1, s1) ∈ slots → (d2, s2) ∈ slots → name_suffix d1 s1 = name_suffix d2 s2 →
  d1 = d2 ∧ s1 = s2.
Proof.
  intros H1 H2 Heq.
  pose proof (NoDup_fmap_inj_on (λ sl, name_suffix sl.1 sl.2) slots (d1, s1) (d2, s2)
                NoDup_name_suffixes H1 H2 Heq) as Hsl.
  injection Hsl as -> ->. split; reflexivity.
Qed.

Lemma name_inj e1 e2 d1 s1 d2 s2 :
  (d1, s1) ∈ slots → (d2, s2) ∈ slots →
  e1 +:+ name_suffix d1 s1 = e2 +:+ name_suffix d2 s2 →
  e1 = e2 ∧ d1 = d2 ∧ s1 = s2.
Proof.
  intros H1 H2 Heq.
  assert (name_suffix d1 s1 ∈ name_suffixes) as Hin1.
  { apply list_elem_of_fmap. exists (d1, s1). split; [reflexivity|exact H1]. }
  assert (name_suffix d2 s2 ∈ name_suffixes) as Hin2.
  { apply list_elem_of_fmap. exists (d2, s2). split; [reflexivity|exact H2]. }
  pose proof name_suffixes_tail_free as Hfree.
  rewrite Forall_forall in Hfree.
  assert (name_suffix d1 s1 = name_suffix d2 s2 ∧ e1 = e2) as [Hsuf He].
  { destruct (append_eq_cases _ _ _ _ Heq) as [(t & He & Hs)|(t & He & Hs)].
    - pose proof (Hfree _ Hin2) as Hrow. rewrite Forall_forall in Hrow.
      assert (name_suffix d1 s1 = name_suffix d2 s2) as Hsuf.
      { apply (Hrow _ Hin1). rewrite Hs. apply suffixes_append. }
      split; [exact Hsuf|]. rewrite Hsuf in Hs. symmetry in Hs.
      apply append_eq_self in Hs. subst t. rewrite He. apply append_nil_r.
    - pose proof (Hfree _ Hin1) as Hrow. rewrite Forall_forall in Hrow.
      assert (name_suffix d2 s2 = name_suffix d1 s1) as Hsuf.
      { apply (Hrow _ Hin2). rewrite Hs. apply suffixes_append. }
      split; [symmetry; exact Hsuf|]. rewrite Hsuf in Hs. symmetry in Hs.
      apply append_eq_self in Hs. subst t. rewrite He. symmetry. apply append_nil_r. }
  split; [exact He|]. apply (name_suffix_inj d1 s1 d2 s2 H1 H2 Hsuf).
Qed.

(** The names given to the variables identify them: two different variables
    of the problem have different names, as long as no employee is called
    "Shortage". *)
Theorem variable_names_distinct employees desired_shifts required_shifts
    shifts shortages prob x y :
  build_problem employees desired_shifts required_shifts = Ok (shifts, shortages, prob) →
  "Shortage" ∉ employees →
  x ∈ variables prob → y ∈ variables prob → x ≠ y → var_name x ≠ var_name y.
Proof.
  intros Hb Hno Hx Hy Hne Hname. apply Hne. clear Hne.
  apply build_problem_Ok_present in Hb as Hp.
  rewrite (build_problem_ok _ _ _ Hp) in Hb. injection Hb as _ _ <-. clear Hp.
  apply elem_of_variables in Hx, Hy.
  destruct Hx as [(d1 & s1 & H1 & Hx)|(e1 & d1 & s1 & He1 & H1 & Hx)];
    destruct Hy as [(d2 & s2 & H2 & Hy)|(e2 & d2 & s2 & He2 & H2 & Hy)]; subst x y.
  - rewrite !shortage_variable_name in Hname.
    apply name_inj in Hname as (_ & Hd & Hs); [|assumption..]. subst. reflexivity.
  - rewrite shortage_variable_name, shift_variable_name in Hname.
    apply name_inj in Hname as (He & _); [|assumption..]. subst e2.
    exfalso. apply Hno, He2.
  - rewrite shortage_variable_name, shift_variable_name in Hname.
    apply name_inj in Hname as (He & _); [|assumption..]. subst e1.
    exfalso. apply Hno, He1.
  - rewrite !shift_variable_name in Hname.
    apply name_inj in Hname as (He & Hd & Hs); [|assumption..]. subst. reflexivity.
Qed.

Lemma variable_names_distinct_witness :
  ∃ shifts shortages prob,
    build_problem rivals rivals_desired one_each = Ok (shifts, shortages, prob) ∧
    shift_variable "Sato" 1 "Morning" ∈ variables prob ∧
    shortage_variable 1 "Morning" ∈ variables prob ∧
    var_name (shift_variable "Sato" 1 "Morning") ≠ var_name (shortage_variable 1 "Morning").
Proof.
  destruct (build_problem rivals rivals_desired one_each)
    as [[[shifts shortages] prob]|] eqn:Hb; [|vm_compute in Hb; discriminate Hb].
  exists shifts, shortages, prob. split; [reflexivity|].
  assert ((1, "Morning") ∈ slots) as Hin.
  { apply elem_of_slots. split; [apply elem_of_days; lia|apply shift_types_nonempty]. }
  assert (shift_variable "Sato" 1 "Morning" ∈ variables prob ∧
          shortage_variable 1 "Morning" ∈ variables prob) as [Hx Hy].
  { pose proof Hb as Hb'. apply build_problem_Ok_present in Hb' as Hp.
    rewrite (build_problem_ok _ _ _ Hp) in Hb'. injection Hb' as _ _ <-.
    split; apply elem_of_variables.
    - right. exists "Sato", 1, "Morning". split; [left|]. split; [exact Hin|reflexivity].
    - left. exists 1, "Morning". split; [exact Hin|reflexivity]. }
  split; [exact Hx|]. split; [exact Hy|].
  apply (variable_names_distinct rivals rivals_desired one_each shifts shortages prob
           _ _ Hb); [|exact Hx|exact Hy|discriminate].
  unfold rivals. intros Hbad. rewrite !elem_of_cons in Hbad.
  destruct Hbad as [Hbad|[Hbad|Hbad%elem_of_nil]];
    [discriminate Hbad|discriminate Hbad|exact Hbad].
Defined.

(** An employee called "Shortage" gets, for every slot, an assignment
    variable with the name of that slot's shortage variable: two different
    variables of the problem, one binary and one continuous, share a name. *)
Theorem employee_named_shortage_clashes employees desired_shifts required_shifts
    shifts shortages prob d s :
  build_problem employees desired_shifts required_shifts = Ok (shifts, shortages, prob) →
  "Shortage" ∈ employees → (d, s) ∈ slots →
  shift_variable "Shortage" d s ∈ variables prob ∧
  shortage_variable d s ∈ variables prob ∧
  var_name (shift_variable "Shortage" d s) = var_name (shortage_variable d s) ∧
  var_ident (shift_variable "Shortage" d s) ≠ var_ident (shortage_variable d s) ∧
  cat (shift_variable "Shortage" d s) ≠ cat (shortage_variable d s).
Proof.
  intros Hb He Hin. apply build_problem_Ok_present in Hb as Hp.
  rewrite (build_problem_ok _ _ _ Hp) in Hb. injection Hb as _ _ <-. clear Hp.
  split; [|split; [|split; [|split]]].
  - apply elem_of_variables. right. exists "Shortage", d, s.
    split; [exact He|]. split; [exact Hin|reflexivity].
  - apply elem_of_variables. left. exists d, s. split; [exact Hin|reflexivity].
  - reflexivity.
  - discriminate.
  - discriminate.
Qed.

Definition shortage_desired : desired_map := {[ "Shortage" := ∅ ]}.

Lemma employee_named_shortage_clashes_witness :
  ∃ shifts shortages prob,
    build_problem ["Shortage"] shortage_desired one_each = Ok (shifts, shortages, prob) ∧
    shift_variable "Shortage" 1 "Morning" ∈ variables prob ∧
    shortage_variable 1 "Morning" ∈ variables prob ∧
    var_name (shift_variable "Shortage" 1 "Morning") =
      var_name (shortage_variable 1 "Morning").
Proof.
  destruct (build_problem ["Shortage"] shortage_desired one_each)
    as [[[shifts shortages] prob]|] eqn:Hb; [|vm_compute in Hb; discriminate Hb].
  exists shifts, shortages, prob. split; [reflexivity|].
  destruct (employee_named_shortage_clashes ["Shortage"] shortage_desired one_each
              shifts shortages prob 1 "Morning" Hb) as (H1 & H2 & H3 & _).
  - left.
  - apply elem_of_slots. split; [apply elem_of_days; lia|apply shift_types_nonempty].
  - split; [exact H1|]. split; [exact H2|exact H3].
Defined.

(** ** The two goals of the objective do not compete *)

(** An optimal solution has, among all feasible solutions, both the least
    total shortage and the most granted wishes: with this constraint set the
    unit weights of the objective never trade one goal against the other. *)
Theorem optimum_serves_both_goals employees desired_shifts required_shifts
    shifts shortages prob v v' :
  build_problem employees desired_shifts required_shifts = Ok (shifts, shortages, prob) →
  optimal prob v → feasible prob v' →
  (shortage_sum v <= shortage_sum v')%Q ∧
  (granted_sum employees desired_shifts v' <= granted_sum employees desired_shifts v)%Q.
Proof.
  intros Hb Hopt Hfeas. apply build_problem_Ok_present in Hb as Hp.
  rewrite (build_problem_ok _ _ _ Hp) in Hb. injection Hb as _ _ <-. clear Hp.
  apply optimal_values in Hopt as [Hshift Hshort]. apply feasible_model in Hfeas.
  set (W := wanted_of desired_shifts) in *. set (R := required_of required_shifts) in *.
  assert (total_shortage v == total_shortage (canonical employees W R))%Q as Hsum.
  { apply sum_over_ext; intros d Hd. apply sum_over_ext; intros s Hs.
    apply Hshort, elem_of_slots. split; assumption. }
  assert (total_granted employees W v ==
          total_granted employees W (canonical employees W R))%Q as Hg.
  { apply sum_over_ext; intros e He. apply sum_over_ext; intros d Hd.
    apply sum_over_ext; intros s Hs.
    destruct (decide ((d, s) ∈ W e)); [|reflexivity].
    apply Hshift; [exact He|]. apply elem_of_slots. split; assumption. }
  rewrite !shortage_sum_total, !granted_sum_total. fold W. rewrite Hsum, Hg. split.
  - apply (total_shortage_ge employees W R v' Hfeas).
  - apply (total_granted_le employees W R v' Hfeas).
Qed.

(** A feasible solution that grants nothing: nobody works, and every positive
    demand is a shortage. *)
Definition idle_solution (required_shifts : required_map) (x : var_id) : Q :=
  match x with
  | ShiftVar _ _ _ => 0%Q
  | ShortageVar d s => inject_Z (Z.max 0 (required_of required_shifts d s))
  end.

Lemma idle_solution_feasible employees desired_shifts required_shifts :
  feasible (model employees (wanted_of desired_shifts) (required_of required_shifts))
    (idle_solution required_shifts).
Proof.
  apply feasible_model. split.
  - intros d s _. simpl. change 0%Q with (inject_Z 0). rewrite <- Zle_Qle. lia.
  - intros e d s _ _. left. reflexivity.
  - intros d s _. unfold staffing. simpl.
    assert (sum_over employees (λ _ : string, 0) == 0)%Q as Hzero.
    { clear. induction employees as [|e l IH]; [reflexivity|].
      rewrite sum_over_cons, IH. reflexivity. }
    rewrite Hzero, Qplus_0_l, <- Zle_Qle. lia.
  - intros e d s _ _ _. reflexivity.
Qed.

Lemma optimum_serves_both_goals_witness :
  ∃ shifts shortages prob,
    build_problem rivals rivals_desired one_each = Ok (shifts, shortages, prob) ∧
    (shortage_sum (reference_solver rivals rivals_desired one_each prob) <=
     shortage_sum (idle_solution one_each))%Q.
Proof.
  destruct (build_problem rivals rivals_desired one_each)
    as [[[shifts shortages] prob]|] eqn:Hb; [|vm_compute in Hb; discriminate Hb].
  exists shifts, shortages, prob. split; [reflexivity|].
  destruct (optimum_serves_both_goals rivals rivals_desired one_each shifts shortages prob
              (reference_solver rivals rivals_desired one_each prob)
              (idle_solution one_each) Hb) as [Hshort _].
  - apply (reference_solver_optimal rivals rivals_desired one_each _ _ _ Hb).
  - pose proof Hb as Hb'. apply build_problem_Ok_present in Hb' as Hp.
    rewrite (build_problem_ok _ _ _ Hp) in Hb. injection Hb as _ _ <-.
    apply idle_solution_feasible.
  - exact Hshort.
Defined.

(** ** The declared variables *)

(** After the declaration loop, [shifts] holds exactly one variable for each
    listed employee and slot, also when an employee is listed more than once,
    and no other key; [shortages] holds the 60 shortage variables in slot
    order.  Every lookup the function later makes in them succeeds. *)
Theorem declared_variables employees :
  NoDup (PyDict.keys (declare_variables employees).1) ∧
  (∀ e d s,
     PyDict.get (declare_variables employees).1 (e, d, s) =
       if decide (e ∈ employees ∧ (d, s) ∈ slots)
       then Some (shift_variable e d s) else None) ∧
  PyDict.items (declare_variables employees).2 =
    (λ sl, (sl, shortage_variable sl.1 sl.2)) <$> slots ∧
  length (PyDict.items (declare_variables employees).2) = 60%nat.
Proof.
  rewrite declare_variables_split. cbn [fst snd].
  split; [apply NoDup_keys_fill_shifts|]. split; [apply get_fill_shifts|].
  rewrite items_fill_shortages. split; reflexivity.
Qed.
